(** * ESP8266HttpRead: the stream filter and the parsers layered on it

    A shallow embedding of [ESP8266HttpRead.cpp] / [ESP8266HttpRead.h].

    Modelling choices.
    - The ESP8266 client (the byte source) is the list of bytes it will still
      deliver.  A non-empty list is a source whose [available()] is true; an
      empty list is a source that stays silent, so the polling loop of
      [read()] runs into its deadline and returns [READ_TIMEOUT].  The clock
      itself is not modelled.
    - [int] values are [Z].  The cells of [_cmdBuf] only ever hold what the
      client's [read()] returned after [available()], a byte; they are kept
      as bytes and widened to [int] where [read()] returns them.
    - A load or store outside [_cmdBuf[0..19]] is undefined behaviour in C++;
      the model stops there with [OutOfBounds].
    - Loops whose termination depends on the source take fuel. *)

From Stdlib Require Import PrimFloat Uint63 ZArith Ascii String Bool Lia List.
Import ListNotations.
Open Scope Z_scope.

(* Decimal literals such as 0.1 stand for the nearest binary64 value. *)
#[local] Set Warnings "-inexact-float".

(** ** Bytes, chars and ints *)

Definition byte := ascii.

(** The [int] a byte widens to: 0..255. *)
Definition int_of_byte (b : byte) : Z := Z.of_N (N_of_ascii b).

(** [(char) x]: truncation to a signed 8-bit value. *)
Definition to_char (x : Z) : Z := (x + 128) mod 256 - 128.

(** A character literal, as the [char] value it denotes. *)
Definition chr (c : ascii) : Z := to_char (int_of_byte c).

Definition bytes (s : string) : list byte := list_ascii_of_string s.

Definition LF : byte := "010"%char.

(** ** Results of one operation *)

Inductive outcome (A : Type) : Type :=
| Ret (a : A)
| OutOfBounds
| OutOfFuel.
Arguments Ret {A} a.
Arguments OutOfBounds {A}.
Arguments OutOfFuel {A}.

(** ** The reader object *)

(** [_cmdState] is a [byte] that is only ever assigned one of the [CMD_*]
    values; the [default:] case of the switch in [read()] is therefore not
    reachable and has no counterpart here. *)
Inductive CmdState : Type :=
| CMD_WAIT
| CMD_NL | CMD_PLUS | CMD_I | CMD_P | CMD_D | CMD_COMMA
| CMD_0 | CMD_0_ | CMD_0_C | CMD_0_CL | CMD_0_CLO | CMD_0_CLOS | CMD_0_CLOSE.

Definition is_wait (s : CmdState) : bool :=
  match s with CMD_WAIT => true | _ => false end.

Definition CMDBUF_LEN : Z := 20.

Record ESP8266HttpRead : Type := mkReader {
  _pEsp8266Client : bool;      (* true: bound to the client; false: null *)
  _timeoutMs : Z;
  _cmdState : CmdState;
  _cmdBuf : list byte;         (* int _cmdBuf[20] *)
  _nextIn : Z;
  _nextOut : Z
}.

Definition READ_ERROR : Z := -3.
Definition READ_TIMEOUT : Z := -2.
Definition READ_CLOSED : Z := -1.

(** The array has its 20 cells. *)
Definition wf_reader (r : ESP8266HttpRead) : Prop :=
  Z.of_nat (length (_cmdBuf r)) = CMDBUF_LEN.

(** A reader as the default constructor leaves a zero-initialised object. *)
Definition new_reader : ESP8266HttpRead :=
  mkReader false 0 CMD_WAIT (repeat Ascii.zero 20) 0 0.

Definition in_bounds (i : Z) : bool := (0 <=? i) && (i <? CMDBUF_LEN).

(** [_cmdBuf[i]] as an rvalue. *)
Definition buf_load (buf : list byte) (i : Z) : option byte :=
  if in_bounds i then nth_error buf (Z.to_nat i) else None.

(** [_cmdBuf[i] = v]. *)
Definition buf_store (buf : list byte) (i : Z) (v : byte) : option (list byte) :=
  if in_bounds i
  then Some (firstn (Z.to_nat i) buf ++ v :: skipn (S (Z.to_nat i)) buf)
  else None.

Definition set_cursors (r : ESP8266HttpRead) (s : CmdState) (nin nout : Z)
  : ESP8266HttpRead :=
  mkReader (_pEsp8266Client r) (_timeoutMs r) s (_cmdBuf r) nin nout.

Definition set_cmdBuf (r : ESP8266HttpRead) (buf : list byte) : ESP8266HttpRead :=
  mkReader (_pEsp8266Client r) (_timeoutMs r) (_cmdState r) buf
           (_nextIn r) (_nextOut r).

(** ** begin / end *)

Definition begin (r : ESP8266HttpRead) (timeoutMs : Z) : bool * ESP8266HttpRead :=
  (true, mkReader true timeoutMs CMD_WAIT (_cmdBuf r) 0 0).

Definition end_ (r : ESP8266HttpRead) : ESP8266HttpRead :=
  mkReader false (_timeoutMs r) (_cmdState r) (_cmdBuf r) (_nextIn r) (_nextOut r).

(** ** The command recogniser *)

(** The byte just stored, [_cmdBuf[_nextIn]]. *)
Definition cur (r : ESP8266HttpRead) : byte :=
  nth (Z.to_nat (_nextIn r)) (_cmdBuf r) Ascii.zero.

Definition advanceIf (wantChar : ascii) (newState : CmdState)
  (r : ESP8266HttpRead) : ESP8266HttpRead :=
  if Ascii.eqb (cur r) wantChar
  then set_cursors r newState (_nextIn r + 1) (_nextIn r + 1)
  else set_cursors r CMD_WAIT (_nextIn r + 1) 0.

(** What the [switch] of [read()] does with the loop. *)
Inductive flow : Type :=
| Break (r : ESP8266HttpRead)
| Return (v : Z) (r : ESP8266HttpRead).

Definition dispatch (r : ESP8266HttpRead) : flow :=
  match _cmdState r with
  | CMD_WAIT =>
      if Ascii.eqb (cur r) LF
      then Break (set_cursors r CMD_NL (_nextIn r + 1) (_nextIn r + 1))
      else if Ascii.eqb (cur r) "0"
      then Break (set_cursors r CMD_0 (_nextIn r + 1) (_nextIn r + 1))
      else Break (set_cursors r CMD_WAIT (_nextIn r + 1) 0)
  | CMD_NL => Break (advanceIf "+" CMD_PLUS r)
  | CMD_PLUS => Break (advanceIf "I" CMD_I r)
  | CMD_I => Break (advanceIf "P" CMD_P r)
  | CMD_P => Break (advanceIf "D" CMD_D r)
  | CMD_D => Break (advanceIf "," CMD_COMMA r)
  | CMD_COMMA =>
      if negb (Ascii.eqb (cur r) ":")
      then Break (set_cursors r CMD_COMMA (_nextIn r + 1) (_nextIn r + 1))
      else Break (set_cursors r CMD_WAIT 0 0)
  | CMD_0 => Break (advanceIf "," CMD_0_ r)
  | CMD_0_ => Break (advanceIf "C" CMD_0_C r)
  | CMD_0_C => Break (advanceIf "L" CMD_0_CL r)
  | CMD_0_CL => Break (advanceIf "O" CMD_0_CLO r)
  | CMD_0_CLO => Break (advanceIf "S" CMD_0_CLOS r)
  | CMD_0_CLOS => Break (advanceIf "E" CMD_0_CLOSE r)
  | CMD_0_CLOSE =>
      if Ascii.eqb (cur r) "D"
      then Return READ_CLOSED r
      else Break (set_cursors r CMD_WAIT (_nextIn r + 1) 0)
  end.

(** ** read() *)

(** The [while (true)] loop of [read()].  Every iteration that does not
    return takes one byte from the source, so the source list is the
    structural argument. *)
Fixpoint read_loop (r : ESP8266HttpRead) (src : list byte) {struct src}
  : outcome (Z * (ESP8266HttpRead * list byte)) :=
  if _nextOut r <? _nextIn r then
    match buf_load (_cmdBuf r) (_nextOut r) with
    | Some c =>
        Ret (int_of_byte c,
             (set_cursors r (_cmdState r) (_nextIn r) (_nextOut r + 1), src))
    | None => OutOfBounds
    end
  else
    let r1 := if is_wait (_cmdState r) then set_cursors r CMD_WAIT 0 0 else r in
    match src with
    | [] => Ret (READ_TIMEOUT, (r1, []))
    | b :: src' =>
        match buf_store (_cmdBuf r1) (_nextIn r1) b with
        | None => OutOfBounds
        | Some buf' =>
            match dispatch (set_cmdBuf r1 buf') with
            | Break r2 => read_loop r2 src'
            | Return v r2 => Ret (v, (r2, src'))
            end
        end
    end.

(** The reader together with the source it is bound to. *)
Definition world : Type := ESP8266HttpRead * list byte.

Definition read (w : world) : outcome (Z * world) :=
  if negb (_pEsp8266Client (fst w))
  then Ret (READ_ERROR, w)
  else read_loop (fst w) (snd w).

(** A reader begun on a source. *)
Definition start (r : ESP8266HttpRead) (timeoutMs : Z) (input : list byte) : world :=
  (snd (begin r timeoutMs), input).

(** ** Reading until the first result that is not a byte *)

Fixpoint drain (fuel : nat) (w : world) : list Z * outcome (Z * world) :=
  match fuel with
  | O => ([], OutOfFuel)
  | S fuel' =>
      match read w with
      | Ret (v, w') =>
          if v <? 0 then ([], Ret (v, w'))
          else let (out, e) := drain fuel' w' in (v :: out, e)
      | OutOfBounds => ([], OutOfBounds)
      | OutOfFuel => ([], OutOfFuel)
      end
  end.

(** One more call than there are bytes is always enough from [begin]. *)
Definition filtered (r : ESP8266HttpRead) (timeoutMs : Z) (input : list byte)
  : list Z * outcome (Z * world) :=
  drain (S (length input)) (start r timeoutMs input).

Definition delivered (r : ESP8266HttpRead) (timeoutMs : Z) (input : list byte)
  : list Z :=
  fst (filtered r timeoutMs input).

Definition ints (l : list byte) : list Z := map int_of_byte l.

(** ** The recogniser as a function on byte lists

    [scan s t src] runs the transition table from state [s] with the
    tentative bytes [t] buffered, over the bytes [src]: it gives the bytes
    handed to the caller and how the run ends.  It is the yardstick the
    loop of [read()] is measured against below. *)

Inductive verdict : Type :=
| Advance (s : CmdState)
| Flush
| Skip
| Close.

Definition expect (want : ascii) (s' : CmdState) (b : byte) : verdict :=
  if Ascii.eqb b want then Advance s' else Flush.

Definition next (s : CmdState) (b : byte) : verdict :=
  match s with
  | CMD_WAIT =>
      if Ascii.eqb b LF then Advance CMD_NL
      else if Ascii.eqb b "0" then Advance CMD_0 else Flush
  | CMD_NL => expect "+" CMD_PLUS b
  | CMD_PLUS => expect "I" CMD_I b
  | CMD_I => expect "P" CMD_P b
  | CMD_P => expect "D" CMD_D b
  | CMD_D => expect "," CMD_COMMA b
  | CMD_COMMA => if Ascii.eqb b ":" then Skip else Advance CMD_COMMA
  | CMD_0 => expect "," CMD_0_ b
  | CMD_0_ => expect "C" CMD_0_C b
  | CMD_0_C => expect "L" CMD_0_CL b
  | CMD_0_CL => expect "O" CMD_0_CLO b
  | CMD_0_CLO => expect "S" CMD_0_CLOS b
  | CMD_0_CLOS => expect "E" CMD_0_CLOSE b
  | CMD_0_CLOSE => if Ascii.eqb b "D" then Close else Flush
  end.

Inductive ending : Type :=
| AtTimeout (s : CmdState) (t : list byte)
| AtClosed (t : list byte) (rest : list byte)
| AtOverflow.

Fixpoint scan (s : CmdState) (t : list byte) (src : list byte)
  : list byte * ending :=
  match src with
  | [] => ([], AtTimeout s t)
  | b :: src' =>
      if (20 <=? length t)%nat then ([], AtOverflow)
      else
        match next s b with
        | Advance s' => scan s' (t ++ [b]) src'
        | Flush => let (o, e) := scan CMD_WAIT [] src' in (t ++ b :: o, e)
        | Skip => scan CMD_WAIT [] src'
        | Close => ([], AtClosed t src')
        end
  end.

(** What a reader still owes the caller, and what it holds back. *)
Definition taken (r : ESP8266HttpRead) : list byte :=
  firstn (Z.to_nat (_nextIn r)) (_cmdBuf r).

Definition queue (r : ESP8266HttpRead) : list byte :=
  if is_wait (_cmdState r) then skipn (Z.to_nat (_nextOut r)) (taken r) else [].

Definition tentative (r : ESP8266HttpRead) : list byte :=
  if is_wait (_cmdState r) then [] else taken r.

Definition view (w : world) : list byte * ending :=
  let (o, e) := scan (_cmdState (fst w)) (tentative (fst w)) (snd w) in
  (queue (fst w) ++ o, e).

(** The cursor invariant of the data model, as the code keeps it. *)
Definition cursors_ok (r : ESP8266HttpRead) : Prop :=
  0 <= _nextOut r <= _nextIn r /\ _nextIn r <= CMDBUF_LEN /\
  (_cmdState r <> CMD_WAIT -> _nextOut r = _nextIn r).

Definition good (r : ESP8266HttpRead) : Prop :=
  _pEsp8266Client r = true /\ wf_reader r /\ cursors_ok r.

(** ** Control sequences in an input *)

Definition IPD : list byte := LF :: bytes "+IPD,".
Definition CLOSED : list byte := bytes "0,CLOSED".
Definition IPD5 : list byte := IPD ++ bytes "5:".

Fixpoint starts_with (lit l : list byte) : bool :=
  match lit, l with
  | [], _ => true
  | c :: lit', b :: l' => Ascii.eqb b c && starts_with lit' l'
  | _ :: _, [] => false
  end.

Definition has_colon (l : list byte) : bool := existsb (Ascii.eqb ":") l.

(** Somewhere in [l] stands [\n+IPD,], and a colon after it: an occurrence
    of [\n+IPD,...:]. *)
Fixpoint has_ipd_command (l : list byte) : bool :=
  match l with
  | [] => false
  | _ :: l' =>
      (starts_with IPD l && has_colon (skipn 6 l)) || has_ipd_command l'
  end.

(** Somewhere in [l] stands [0,CLOSED]. *)
Fixpoint has_closed (l : list byte) : bool :=
  match l with
  | [] => false
  | _ :: l' => starts_with CLOSED l || has_closed l'
  end.

Definition clean (l : list byte) : bool :=
  negb (has_ipd_command l) && negb (has_closed l).

(** Somewhere in [l] stands [\n+IPD,] with at least 15 bytes after it, the
    first 14 of them without a colon: with the 6 bytes of [\n+IPD,] that is
    more than [_cmdBuf] holds. *)
Fixpoint overlong (l : list byte) : bool :=
  match l with
  | [] => false
  | _ :: l' =>
      (starts_with IPD l && (15 <=? length (skipn 6 l))%nat
         && negb (has_colon (firstn 14 (skipn 6 l))))
      || overlong l'
  end.

(** The literal a state has seen so far. *)
Definition seen (s : CmdState) : list byte :=
  match s with
  | CMD_WAIT => []
  | CMD_NL => [LF]
  | CMD_PLUS => LF :: bytes "+"
  | CMD_I => LF :: bytes "+I"
  | CMD_P => LF :: bytes "+IP"
  | CMD_D => LF :: bytes "+IPD"
  | CMD_COMMA => IPD
  | CMD_0 => bytes "0"
  | CMD_0_ => bytes "0,"
  | CMD_0_C => bytes "0,C"
  | CMD_0_CL => bytes "0,CL"
  | CMD_0_CLO => bytes "0,CLO"
  | CMD_0_CLOS => bytes "0,CLOS"
  | CMD_0_CLOSE => bytes "0,CLOSE"
  end.

(** The tentative bytes of a state are its literal, and in [CMD_COMMA] the
    colon-free field absorbed after it. *)
Definition chain (s : CmdState) (t : list byte) : Prop :=
  match s with
  | CMD_COMMA => exists f, t = IPD ++ f /\ has_colon f = false
  | _ => t = seen s
  end.

Definition ends_idle (e : outcome (Z * world)) : bool :=
  match e with
  | Ret (v, (r, _)) => (v =? READ_TIMEOUT) && is_wait (_cmdState r)
  | _ => false
  end.

(** ** Calling read() several times *)

(** [n] calls in a row, whatever they return. *)
Fixpoint reads (n : nat) (w : world) : outcome (list Z * world) :=
  match n with
  | O => Ret ([], w)
  | S n' =>
      match read w with
      | Ret (v, w') =>
          match reads n' w' with
          | Ret (vs, w'') => Ret (v :: vs, w'')
          | OutOfBounds => OutOfBounds
          | OutOfFuel => OutOfFuel
          end
      | OutOfBounds => OutOfBounds
      | OutOfFuel => OutOfFuel
      end
  end.

(** ** The operations layered on read() *)

Definition M (A : Type) : Type := world -> outcome (A * world).

Definition ret {A : Type} (a : A) : M A := fun w => Ret (a, w).

Definition bind {A B : Type} (c : M A) (k : A -> M B) : M B :=
  fun w =>
    match c w with
    | Ret (a, w') => k a w'
    | OutOfBounds => OutOfBounds
    | OutOfFuel => OutOfFuel
    end.

Notation "x <- c ;; k" := (bind c (fun x => k))
  (at level 61, c at next level, right associativity).
Notation "' p <- c ;; k" := (bind c (fun x => match x with p => k end))
  (at level 61, p pattern, c at next level, right associativity).

(** A C string without its terminator, as [char] values. *)
Definition cstr (s : string) : list Z := map chr (bytes s).

(** [buf[i] = v] in the caller's array. *)
Definition poke (buf : list Z) (i : nat) (v : Z) : list Z :=
  firstn i buf ++ v :: skipn (S i) buf.

Definition peek (buf : list Z) (i : nat) : Z := nth i buf 0.

(** [read(char *buf, short count)]: [pNext] runs from [buf] to [&buf[count]]. *)
Fixpoint read_buf_from (buf : list Z) (pNext : nat) (todo : nat)
  : M (bool * list Z) :=
  match todo with
  | O => ret (true, buf)
  | S todo' =>
      ch <- read ;;
      if ch <? 0 then ret (false, buf)
      else read_buf_from (poke buf pNext (to_char ch)) (S pNext) todo'
  end.

Definition read_buf (buf : list Z) (count : nat) : M (bool * list Z) :=
  read_buf_from buf 0 count.

(** [find(char *ppattern)]: [p] is the rest of the pattern still to match. *)
Fixpoint find_from (fuel : nat) (ppattern p : list Z) {struct fuel} : M bool :=
  match p with
  | [] => ret true
  | pc :: p' =>
      match fuel with
      | O => fun _ => OutOfFuel
      | S fuel' =>
          ch <- read ;;
          if ch <? 0 then ret false
          else if to_char ch =? pc then find_from fuel' ppattern p'
          else find_from fuel' ppattern ppattern
      end
  end.

Definition find (fuel : nat) (ppattern : list Z) : M bool :=
  find_from fuel ppattern ppattern.

Record HttpDateTime : Type := mkDate {
  daySinceSunday : Z;
  year : Z;
  month : Z;
  day : Z;
  hour : Z;
  minute : Z;
  second : Z
}.

(** [pDateTimeUTC->field = v] *)
Definition set_daySinceSunday (dt : HttpDateTime) (v : Z) : HttpDateTime :=
  mkDate v (year dt) (month dt) (day dt) (hour dt) (minute dt) (second dt).
Definition set_year (dt : HttpDateTime) (v : Z) : HttpDateTime :=
  mkDate (daySinceSunday dt) v (month dt) (day dt) (hour dt) (minute dt)
         (second dt).
Definition set_month (dt : HttpDateTime) (v : Z) : HttpDateTime :=
  mkDate (daySinceSunday dt) (year dt) v (day dt) (hour dt) (minute dt)
         (second dt).
Definition set_day (dt : HttpDateTime) (v : Z) : HttpDateTime :=
  mkDate (daySinceSunday dt) (year dt) (month dt) v (hour dt) (minute dt)
         (second dt).
Definition set_hour (dt : HttpDateTime) (v : Z) : HttpDateTime :=
  mkDate (daySinceSunday dt) (year dt) (month dt) (day dt) v (minute dt)
         (second dt).
Definition set_minute (dt : HttpDateTime) (v : Z) : HttpDateTime :=
  mkDate (daySinceSunday dt) (year dt) (month dt) (day dt) (hour dt) v
         (second dt).
Definition set_second (dt : HttpDateTime) (v : Z) : HttpDateTime :=
  mkDate (daySinceSunday dt) (year dt) (month dt) (day dt) (hour dt)
         (minute dt) v.

Definition is_digit (c : Z) : bool := (chr "0" <=? c) && (c <=? chr "9").

Definition two_digits (buf : list Z) : Z :=
  (peek buf 0 - chr "0") * 10 + (peek buf 1 - chr "0").

(** [findDate]: the fields are written as the parse goes and stay as they
    are when it fails.  [buf] is the local [char buf[4]]; no cell of it is
    read before it is written.  The values assigned stay below 10000, so
    neither [int] nor [short] wraps. *)
Definition findDate (fuel : nat) : M (bool * HttpDateTime) :=
  let buf := [0; 0; 0; 0] in
  let dt := mkDate (-1) (-1) (-1) (-1) (-1) (-1) (-1) in
  found <- find fuel (cstr "Date: ") ;;
  if negb found then ret (false, dt) else
  (* Day of week *)
  '(ok, buf) <- read_buf buf 3 ;;
  if negb ok then ret (false, dt) else
  match
    (if peek buf 0 =? chr "S" then
       if peek buf 1 =? chr "u" then Some 0
       else if peek buf 1 =? chr "a" then Some 6
       else None
     else if peek buf 0 =? chr "M" then Some 1
     else if peek buf 0 =? chr "T" then
       if peek buf 1 =? chr "u" then Some 2
       else if peek buf 1 =? chr "h" then Some 4
       else None
     else if peek buf 0 =? chr "W" then Some 3
     else if peek buf 0 =? chr "F" then Some 5
     else None)
  with
  | None => ret (false, dt)
  | Some d =>
  let dt := set_daySinceSunday dt d in
  (* ", " *)
  '(ok, buf) <- read_buf buf 2 ;;
  if negb ok then ret (false, dt) else
  (* Day of the month *)
  '(ok, buf) <- read_buf buf 2 ;;
  if negb ok then ret (false, dt) else
  if negb (is_digit (peek buf 0)) then ret (false, dt) else
  if negb (is_digit (peek buf 1)) then ret (false, dt) else
  let dt := set_day dt (two_digits buf) in
  ch <- read ;;
  if ch <? 0 then ret (false, dt) else
  (* Month *)
  '(ok, buf) <- read_buf buf 3 ;;
  if negb ok then ret (false, dt) else
  match
    (if peek buf 0 =? chr "J" then
       if peek buf 1 =? chr "a" then Some 1
       else if peek buf 2 =? chr "n" then Some 6
       else if peek buf 2 =? chr "l" then Some 7
       else None
     else if peek buf 0 =? chr "F" then Some 2
     else if peek buf 0 =? chr "M" then
       if peek buf 2 =? chr "r" then Some 3
       else if peek buf 2 =? chr "y" then Some 5
       else None
     else if peek buf 0 =? chr "A" then
       if peek buf 1 =? chr "p" then Some 4
       else if peek buf 1 =? chr "u" then Some 8
       else None
     else if peek buf 0 =? chr "S" then Some 9
     else if peek buf 0 =? chr "O" then Some 10
     else if peek buf 0 =? chr "N" then Some 11
     else if peek buf 0 =? chr "D" then Some 12
     else None)
  with
  | None => ret (false, dt)
  | Some m =>
  let dt := set_month dt m in
  ch <- read ;;
  if ch <? 0 then ret (false, dt) else
  (* Year *)
  '(ok, buf) <- read_buf buf 4 ;;
  if negb ok then ret (false, dt) else
  if negb (is_digit (peek buf 0)) then ret (false, dt) else
  if negb (is_digit (peek buf 1)) then ret (false, dt) else
  if negb (is_digit (peek buf 2)) then ret (false, dt) else
  if negb (is_digit (peek buf 3)) then ret (false, dt) else
  let dt := set_year dt ((peek buf 0 - chr "0") * 1000
                         + (peek buf 1 - chr "0") * 100
                         + (peek buf 2 - chr "0") * 10
                         + (peek buf 3 - chr "0")) in
  ch <- read ;;
  if ch <? 0 then ret (false, dt) else
  (* Hour *)
  '(ok, buf) <- read_buf buf 2 ;;
  if negb ok then ret (false, dt) else
  if negb (is_digit (peek buf 0)) then ret (false, dt) else
  if negb (is_digit (peek buf 1)) then ret (false, dt) else
  let dt := set_hour dt (two_digits buf) in
  ch <- read ;;
  if ch <? 0 then ret (false, dt) else
  (* Minute *)
  '(ok, buf) <- read_buf buf 2 ;;
  if negb ok then ret (false, dt) else
  if negb (is_digit (peek buf 0)) then ret (false, dt) else
  if negb (is_digit (peek buf 1)) then ret (false, dt) else
  let dt := set_minute dt (two_digits buf) in
  ch <- read ;;
  if ch <? 0 then ret (false, dt) else
  (* Second *)
  '(ok, buf) <- read_buf buf 2 ;;
  if negb ok then ret (false, dt) else
  if negb (is_digit (peek buf 0)) then ret (false, dt) else
  if negb (is_digit (peek buf 1)) then ret (false, dt) else
  let dt := set_second dt (two_digits buf) in
  ch <- read ;;
  if ch <? 0 then ret (false, dt) else
  (* Timezone *)
  '(ok, buf) <- read_buf buf 3 ;;
  if negb ok then ret (false, dt) else
  if negb (peek buf 0 =? chr "G") || negb (peek buf 1 =? chr "M")
     || negb (peek buf 2 =? chr "T")
  then ret (false, dt)
  else ret (true, dt)
  end end.

(** ** readDouble()

    [double] is taken as IEEE binary64, with the arithmetic of the kernel's
    floats.  (Where the compiler's [double] is narrower the digits of the
    value differ; which bytes are read does not depend on it.) *)

Definition DBL_MAX : float := 0x1.fffffffffffffp+1023%float.

(** An [int] between 0 and 9 converted to [double]. *)
Definition double_of_int (d : Z) : float := PrimFloat.of_uint63 (Uint63.of_Z d).

(** [while ('0' <= (char) ch && (char) ch <= '9')] over the integer part. *)
Fixpoint integer_part (fuel : nat) (sawInteger : bool) (result : float) (ch : Z)
  : M (bool * float * Z) :=
  if is_digit (to_char ch) then
    match fuel with
    | O => fun _ => OutOfFuel
    | S fuel' =>
        let result := (result * 10)%float in
        let result := (result + double_of_int (to_char ch - chr "0"))%float in
        ch' <- read ;;
        integer_part fuel' true result ch'
    end
  else ret (sawInteger, result, ch).

(** The same loop over the fractional part. *)
Fixpoint fraction_part (fuel : nat) (sawInteger : bool) (result scale : float)
  (ch : Z) : M (bool * float * Z) :=
  if is_digit (to_char ch) then
    match fuel with
    | O => fun _ => OutOfFuel
    | S fuel' =>
        let result :=
          (result + scale * double_of_int (to_char ch - chr "0"))%float in
        let scale := (scale / 10)%float in
        ch' <- read ;;
        fraction_part fuel' true result scale ch'
    end
  else ret (sawInteger, result, ch).

Definition readDouble (fuel : nat) : M float :=
  ch <- read ;;
  '(sawInteger, result, ch) <- integer_part fuel false 0%float ch ;;
  if ch <? 0 then ret DBL_MAX
  else if negb (ch =? chr ".") then
    if negb sawInteger then ret DBL_MAX else ret result
  else
    ch <- read ;;
    '(sawInteger, result, ch) <-
       fraction_part fuel sawInteger result 0.1%float ch ;;
    if ch <? 0 then ret DBL_MAX
    else if negb sawInteger then ret DBL_MAX
    else ret result.

(** What a call returned, when it returned. *)
Definition returned {A B : Type} (o : outcome (A * B)) : option A :=
  match o with Ret (a, _) => Some a | _ => None end.

(** ** The life of a reader object *)

(** The public operations, as a caller issues them. *)
Inductive call : Type :=
| Begin (timeoutMs : Z)
| End
| Read
| ReadBuf (buf : list Z) (count : nat)
| Find (fuel : nat) (ppattern : list Z)
| FindDate (fuel : nat)
| ReadDouble (fuel : nat).

(** The reader object a call leaves behind.  A call that stores outside
    [_cmdBuf] leaves none: from there on the C++ object is undefined. *)
Definition object_after {A : Type} (o : outcome (A * world))
  : outcome ESP8266HttpRead :=
  match o with
  | Ret (_, w') => Ret (fst w')
  | OutOfBounds => OutOfBounds
  | OutOfFuel => OutOfFuel
  end.

(** One call on the object [r], made when the client has [src] still to
    deliver. *)
Definition perform (c : call) (r : ESP8266HttpRead) (src : list byte)
  : outcome ESP8266HttpRead :=
  match c with
  | Begin timeoutMs => Ret (snd (begin r timeoutMs))
  | End => Ret (end_ r)
  | Read => object_after (read (r, src))
  | ReadBuf buf count => object_after (read_buf buf count (r, src))
  | Find fuel ppattern => object_after (find fuel ppattern (r, src))
  | FindDate fuel => object_after (findDate fuel (r, src))
  | ReadDouble fuel => object_after (readDouble fuel (r, src))
  end.

(** A session: the calls made on one object, each with what the client has
    to deliver at that moment (what the call before left unread, what has
    arrived since, another client's bytes after a [begin()]: any list).  The
    result is the object between calls, after the last of them; it is
    [OutOfBounds] as soon as one call has stored outside [_cmdBuf], and
    [OutOfFuel] when a call has not returned within its fuel. *)
Fixpoint session (r : ESP8266HttpRead) (cs : list (call * list byte))
  : outcome ESP8266HttpRead :=
  match cs with
  | [] => Ret r
  | (c, src) :: cs' =>
      match perform c r src with
      | Ret r' => session r' cs'
      | OutOfBounds => OutOfBounds
      | OutOfFuel => OutOfFuel
      end
  end.

(** An operation keeps the buffer's size and the cursor invariant. *)
Definition keeps {A : Type} (c : M A) : Prop :=
  forall w a w',
    wf_reader (fst w) -> cursors_ok (fst w) -> c w = Ret (a, w') ->
    wf_reader (fst w') /\ cursors_ok (fst w').

(** An ending after which reading can go on without leaving the buffer:
    after a timeout the source is dry; after READ_CLOSED the reader still
    holds [0,CLOSE] and the rest of the source is scanned from there. *)
Inductive safe_end : ending -> Prop :=
| safe_timeout (s : CmdState) (t : list byte) : safe_end (AtTimeout s t)
| safe_closed (t rest : list byte) :
    safe_end (snd (scan CMD_0_CLOSE t rest)) -> safe_end (AtClosed t rest).

(** The reader after [begin] and one [read()] on the source [\nX]: the
    newline has been handed out, the [X] waits in the buffer. *)
Definition after_failed_match : ESP8266HttpRead :=
  mkReader true 1000 CMD_WAIT (LF :: "X"%char :: repeat Ascii.zero 18) 2 1.

(** ** How a call of read() is measured against the view *)

Definition settles (e : ending) (res : outcome (Z * world)) : Prop :=
  match e with
  | AtTimeout s t =>
      exists r', res = Ret (READ_TIMEOUT, (r', [])) /\ good r' /\
                 _cmdState r' = s /\ tentative r' = t /\ _nextOut r' = _nextIn r'
  | AtClosed t rest =>
      exists r', res = Ret (READ_CLOSED, (r', rest)) /\ good r' /\
                 _cmdState r' = CMD_0_CLOSE /\ tentative r' = t /\
                 _nextOut r' = _nextIn r'
  | AtOverflow => res = OutOfBounds
  end.

Definition read_matches (v : list byte * ending) (res : outcome (Z * world))
  : Prop :=
  match v with
  | (c :: o, e) =>
      exists w', res = Ret (int_of_byte c, w') /\ good (fst w') /\ view w' = (o, e)
  | ([], e) => settles e res
  end.

Definition ending_code (e : ending) : option Z :=
  match e with
  | AtTimeout _ _ => Some READ_TIMEOUT
  | AtClosed _ _ => Some READ_CLOSED
  | AtOverflow => None
  end.

(** ** Patterns that overlap themselves *)



(** ** The last step of findDate, on its own *)

(** [pokes buf i l]: the cells of [buf] from [i] on set to [l], in order. *)
Fixpoint pokes (buf : list Z) (i : nat) (l : list Z) : list Z :=
  match l with
  | [] => buf
  | c :: l' => pokes (poke buf i c) (S i) l'
  end.

Definition chars (l : list byte) : list Z :=
  map (fun b => to_char (int_of_byte b)) l.


Definition CR : byte := "013"%char.

(** A response as a server sends it, status line first. *)
Definition sample_response : list byte :=
  bytes "HTTP/1.1 200 OK" ++ CR :: LF ::
  bytes "Date: Fri, 21 Aug 2015 22:06:40 GMT" ++ CR :: LF ::
  bytes "Content-Length: 10" ++ [CR; LF; CR; LF].

(** ** Subsequences *)

(** [subseq l1 l2]: [l1] is [l2] with some elements left out, the others in
    their order. *)
Inductive subseq {A : Type} : list A -> list A -> Prop :=
| subseq_nil (l : list A) : subseq [] l
| subseq_take (x : A) (l1 l2 : list A) :
    subseq l1 l2 -> subseq (x :: l1) (x :: l2)
| subseq_skip (x : A) (l1 l2 : list A) :
    subseq l1 l2 -> subseq l1 (x :: l2).

(** ** Two runs of one operation *)

(** Two outcomes with the same result, whose worlds go on alike. *)
Definition alike {A : Type} (o1 o2 : outcome (A * world)) : Prop :=
  match o1, o2 with
  | Ret (a1, w1), Ret (a2, w2) =>
      a1 = a2 /\ good (fst w1) /\ good (fst w2) /\ view w1 = view w2
  | OutOfBounds, OutOfBounds => True
  | OutOfFuel, OutOfFuel => True
  | _, _ => False
  end.

(** An operation that cannot tell two worlds with the same view apart. *)
Definition agrees {A : Type} (c : M A) : Prop :=
  forall w1 w2,
    good (fst w1) -> good (fst w2) -> view w1 = view w2 -> alike (c w1) (c w2).

(** ** How far findDate got *)



(** ** Digits *)

Definition digit_byte (b : byte) : bool := is_digit (to_char (int_of_byte b)).


(** What the next [read()] gives when the view starts with [o]: its first
    byte, or a negative code when [o] is empty. *)
Definition next_is (o : list byte) (e : ending) (v : Z) (w' : world) : Prop :=
  match o with
  | [] => v < 0
  | c :: o' => v = int_of_byte c /\ view w' = (o', e)
  end.

(** The digit loops of [readDouble] stop at [o]: at a byte that is no digit,
    or at the end of a stream that ends in a code. *)
Definition stops (o : list byte) (e : ending) : Prop :=
  match o with
  | [] => e <> AtOverflow
  | c :: _ => digit_byte c = false
  end.

(** ** An HTTP date header, written out *)

Definition weekdays : list string :=
  ["Sun"; "Mon"; "Tue"; "Wed"; "Thu"; "Fri"; "Sat"]%string.

Definition months : list string :=
  ["Jan"; "Feb"; "Mar"; "Apr"; "May"; "Jun";
   "Jul"; "Aug"; "Sep"; "Oct"; "Nov"; "Dec"]%string.

(** The character of the decimal digit [d]. *)
Definition digit (d : Z) : byte := ascii_of_N (Z.to_N (48 + d)).

Definition dec2 (n : Z) : list byte := [digit (n / 10); digit (n mod 10)].

Definition dec4 (n : Z) : list byte :=
  [digit (n / 1000); digit (n / 100 mod 10); digit (n / 10 mod 10);
   digit (n mod 10)].

(** The value [findDate] gives a digit character. *)
Definition digit_value (b : byte) : Z := to_char (int_of_byte b) - chr "0".

(** [Date: Www, DD Mmm YYYY HH:MM:SS GMT] for the fields of [dt], with the
    weekday and month names [wd] and [mo], and with [sep 0 .. sep 7] at the
    eight places between the fields. *)
Definition date_text (sep : nat -> byte) (wd mo : string) (dt : HttpDateTime)
  : list byte :=
  bytes "Date: " ++ bytes wd ++ sep 0%nat :: sep 1%nat
  :: dec2 (day dt) ++ sep 2%nat
  :: bytes mo ++ sep 3%nat
  :: dec4 (year dt) ++ sep 4%nat
  :: dec2 (hour dt) ++ sep 5%nat
  :: dec2 (minute dt) ++ sep 6%nat
  :: dec2 (second dt) ++ sep 7%nat
  :: bytes "GMT".

(** The separators as an HTTP server writes them. *)
Definition http_sep (i : nat) : byte :=
  match i with
  | 0%nat => ","%char
  | 5%nat | 6%nat => ":"%char
  | _ => " "%char
  end.


(* ================================================================== *)
(** * Properties *)
(* ================================================================== *)

(** ** The buffer *)

Lemma buf_store_some (buf : list byte) (i : Z) (v : byte) :
  0 <= i < CMDBUF_LEN ->
  buf_store buf i v =
    Some (firstn (Z.to_nat i) buf ++ v :: skipn (S (Z.to_nat i)) buf).
Proof.
  intros H. unfold buf_store, in_bounds.
  destruct (Z.leb_spec 0 i); [|lia].
  destruct (Z.ltb_spec i CMDBUF_LEN); [reflexivity|lia].
Qed.

Lemma buf_store_none (buf : list byte) (i : Z) (v : byte) :
  CMDBUF_LEN <= i -> buf_store buf i v = None.
Proof.
  intros H. unfold buf_store, in_bounds.
  destruct (Z.ltb_spec i CMDBUF_LEN); [lia|]. now rewrite andb_false_r.
Qed.

Lemma stored_length (buf : list byte) (n : nat) (v : byte) :
  (n < length buf)%nat ->
  length (firstn n buf ++ v :: skipn (S n) buf) = length buf.
Proof.
  intros H. rewrite length_app, length_firstn. cbn [length].
  rewrite length_skipn. lia.
Qed.

Lemma stored_firstn (buf : list byte) (n : nat) (v : byte) :
  (n < length buf)%nat ->
  firstn (S n) (firstn n buf ++ v :: skipn (S n) buf) = firstn n buf ++ [v].
Proof.
  intros H.
  assert (L : length (firstn n buf) = n) by (rewrite length_firstn; lia).
  rewrite firstn_app, L.
  replace (S n - n)%nat with 1%nat by lia.
  rewrite firstn_all2 by lia. reflexivity.
Qed.

Lemma stored_nth (buf : list byte) (n : nat) (v d : byte) :
  (n < length buf)%nat ->
  nth n (firstn n buf ++ v :: skipn (S n) buf) d = v.
Proof.
  intros H.
  assert (L : length (firstn n buf) = n) by (rewrite length_firstn; lia).
  rewrite app_nth2 by lia. rewrite L, Nat.sub_diag. reflexivity.
Qed.

Lemma skipn_firstn_cons (buf : list byte) (o n : nat) :
  (o < n)%nat -> (n <= length buf)%nat ->
  exists c, nth_error buf o = Some c /\
            skipn o (firstn n buf) = c :: skipn (S o) (firstn n buf).
Proof.
  revert o n. induction buf as [|a buf IH]; intros o n Hon Hn; cbn [length] in Hn.
  - lia.
  - destruct n as [|n]; [lia|]. destruct o as [|o].
    + exists a. split; reflexivity.
    + destruct (IH o n) as [c [H1 H2]]; try lia.
      exists c. split; [exact H1|]. cbn [firstn skipn]. exact H2.
Qed.

(** ** The switch against the transition table *)

Lemma dispatch_next (r : ESP8266HttpRead) :
  match next (_cmdState r) (cur r) with
  | Advance s' =>
      dispatch r = Break (set_cursors r s' (_nextIn r + 1) (_nextIn r + 1))
      /\ s' <> CMD_WAIT
  | Flush => dispatch r = Break (set_cursors r CMD_WAIT (_nextIn r + 1) 0)
  | Skip => dispatch r = Break (set_cursors r CMD_WAIT 0 0)
  | Close => dispatch r = Return READ_CLOSED r /\ _cmdState r = CMD_0_CLOSE
  end.
Proof.
  unfold dispatch, next, expect, advanceIf.
  destruct (_cmdState r);
    repeat match goal with
           | |- context [Ascii.eqb ?a ?b] => destruct (Ascii.eqb a b)
           end;
    cbn [negb]; try split; try reflexivity; discriminate.
Qed.

(** ** The flush path *)

Lemma read_loop_flush (r : ESP8266HttpRead) (src : list byte) :
  wf_reader r -> cursors_ok r -> _nextOut r < _nextIn r ->
  exists c,
    queue r = c :: queue (set_cursors r (_cmdState r) (_nextIn r) (_nextOut r + 1))
    /\ read_loop r src =
         Ret (int_of_byte c,
              (set_cursors r (_cmdState r) (_nextIn r) (_nextOut r + 1), src)).
Proof.
  intros Hwf (Hc & Hn & Hs) Hlt.
  unfold wf_reader, CMDBUF_LEN in *.
  assert (W : _cmdState r = CMD_WAIT).
  { destruct (_cmdState r) eqn:E; try reflexivity;
      (assert (_nextOut r = _nextIn r) by (apply Hs; discriminate); lia). }
  destruct (skipn_firstn_cons (_cmdBuf r)
              (Z.to_nat (_nextOut r)) (Z.to_nat (_nextIn r)))
    as [c [Hnth Hsk]]; try lia.
  exists c. split.
  - unfold queue, taken. cbn [set_cursors _cmdState _nextIn _nextOut _cmdBuf].
    rewrite W. cbn [is_wait].
    replace (Z.to_nat (_nextOut r + 1)) with (S (Z.to_nat (_nextOut r))) by lia.
    exact Hsk.
  - assert (R : read_loop r src =
                if _nextOut r <? _nextIn r then
                  match buf_load (_cmdBuf r) (_nextOut r) with
                  | Some c =>
                      Ret (int_of_byte c,
                           (set_cursors r (_cmdState r) (_nextIn r)
                              (_nextOut r + 1), src))
                  | None => OutOfBounds
                  end
                else read_loop r src).
    { destruct src; cbn [read_loop]; destruct (_nextOut r <? _nextIn r);
        reflexivity. }
    rewrite R. destruct (Z.ltb_spec (_nextOut r) (_nextIn r)); [|lia].
    unfold buf_load, in_bounds, CMDBUF_LEN.
    destruct (Z.leb_spec 0 (_nextOut r)); [|lia].
    destruct (Z.ltb_spec (_nextOut r) 20); [|lia].
    cbn [andb]. rewrite Hnth. reflexivity.
Qed.

(** ** One call of read() against the view *)

Lemma stored_taken (buf : list byte) (n : nat) (v : byte) :
  (n < length buf)%nat ->
  firstn n (firstn n buf ++ v :: skipn (S n) buf) = firstn n buf.
Proof.
  intros H.
  assert (L : length (firstn n buf) = n) by (rewrite length_firstn; lia).
  rewrite firstn_app, L, Nat.sub_diag. cbn [firstn].
  rewrite firstn_all2 by lia. apply app_nil_r.
Qed.

Lemma read_loop_pull (src : list byte) :
  forall r, good r -> _nextOut r = _nextIn r ->
    (_cmdState r = CMD_WAIT -> _nextIn r = 0) ->
    read_matches (scan (_cmdState r) (taken r) src) (read_loop r src).
Proof.
  induction src as [|b src IH]; intros r (Hb & Hwf & Hc & Hn & Hs) Heq Hw.
  - cbn [scan read_matches settles read_loop].
    destruct (Z.ltb_spec (_nextOut r) (_nextIn r)); [lia|].
    destruct (_cmdState r) eqn:E; cbn [is_wait];
      (eexists; split; [reflexivity|]);
      unfold good, cursors_ok, wf_reader, tentative, taken in *;
      cbn [set_cursors _cmdState _nextIn _nextOut _cmdBuf _pEsp8266Client];
      rewrite ?E; cbn [is_wait];
      try (rewrite (Hw eq_refl); cbn [Z.to_nat firstn]);
      repeat split; try assumption; try lia; try discriminate; try reflexivity;
      try (intros; lia).
  - unfold wf_reader, CMDBUF_LEN in *.
    assert (Lt : length (taken r) = Z.to_nat (_nextIn r)).
    { unfold taken. rewrite length_firstn. lia. }
    assert (R1 : (if is_wait (_cmdState r) then set_cursors r CMD_WAIT 0 0 else r)
                 = r).
    { destruct (_cmdState r) eqn:E; cbn [is_wait]; try reflexivity.
      destruct r as [c t s buf i o]. cbn in *. subst s.
      rewrite (Hw eq_refl) in *. subst o. reflexivity. }
    cbn [scan read_loop].
    destruct (Z.ltb_spec (_nextOut r) (_nextIn r)); [lia|].
    rewrite R1, Lt.
    destruct (Nat.leb_spec 20 (Z.to_nat (_nextIn r))) as [Hov|Hin].
    + cbn [read_matches settles].
      rewrite buf_store_none by (unfold CMDBUF_LEN; lia). reflexivity.
    + rewrite buf_store_some by (unfold CMDBUF_LEN; lia).
      set (n := Z.to_nat (_nextIn r)) in *.
      set (buf' := firstn n (_cmdBuf r) ++ b :: skipn (S n) (_cmdBuf r)).
      set (rs := set_cmdBuf r buf').
      assert (Hlen : (n < length (_cmdBuf r))%nat) by lia.
      assert (Hcur : cur rs = b).
      { unfold cur, rs, buf'. cbn [set_cmdBuf _nextIn _cmdBuf].
        apply stored_nth. exact Hlen. }
      assert (Hst : _cmdState rs = _cmdState r) by reflexivity.
      assert (Hlen' : length buf' = length (_cmdBuf r))
        by (apply stored_length; exact Hlen).
      generalize (dispatch_next rs). rewrite Hcur, Hst.
      destruct (next (_cmdState r) b) as [s'| | |].
      * intros [D Hs']. rewrite D.
        set (r2 := set_cursors rs s' (_nextIn rs + 1) (_nextIn rs + 1)).
        assert (T2 : taken r2 = taken r ++ [b]).
        { unfold taken, r2, rs.
          cbn [set_cursors set_cmdBuf _nextIn _cmdBuf].
          replace (Z.to_nat (_nextIn r + 1)) with (S n) by lia.
          apply stored_firstn. exact Hlen. }
        rewrite <- T2.
        apply (IH r2).
        -- unfold good, wf_reader, cursors_ok, r2, rs, CMDBUF_LEN.
           cbn [set_cursors set_cmdBuf _cmdState _nextIn _nextOut _cmdBuf
                  _pEsp8266Client].
           repeat split; try assumption; try lia.
        -- reflexivity.
        -- intros W. exfalso. apply Hs'. exact W.
      * intros D. rewrite D.
        set (r2 := set_cursors rs CMD_WAIT (_nextIn rs + 1) 0).
        assert (G2 : wf_reader r2 /\ cursors_ok r2).
        { unfold wf_reader, cursors_ok, r2, rs, CMDBUF_LEN.
          cbn [set_cursors set_cmdBuf _cmdState _nextIn _nextOut _cmdBuf].
          repeat split; try assumption; try lia. intros W; now elim W. }
        destruct G2 as [G2a G2b].
        destruct (read_loop_flush r2 src G2a G2b) as [c [Hq Hr]].
        { unfold r2, rs. cbn [set_cursors set_cmdBuf _nextIn _nextOut]. lia. }
        assert (Q2 : queue r2 = taken r ++ [b]).
        { unfold queue, taken, r2, rs.
          cbn [set_cursors set_cmdBuf _cmdState _nextIn _nextOut _cmdBuf is_wait
                 Z.to_nat skipn].
          replace (Z.to_nat (_nextIn r + 1)) with (S n) by lia.
          apply stored_firstn. exact Hlen. }
        rewrite Hr.
        destruct (scan CMD_WAIT [] src) as [o e] eqn:Esc.
        replace (taken r ++ b :: o) with ((taken r ++ [b]) ++ o)
          by (rewrite <- app_assoc; reflexivity).
        rewrite <- Q2, Hq. cbn [app read_matches].
        eexists; split; [reflexivity|]. split.
        -- unfold good, wf_reader, cursors_ok, r2, rs, CMDBUF_LEN in *.
           cbn [fst set_cursors set_cmdBuf _cmdState _nextIn _nextOut _cmdBuf
                  _pEsp8266Client] in *.
           repeat split; try assumption; try lia. intros W; now elim W.
        -- unfold view, tentative. cbn [fst snd set_cursors _cmdState].
           change (_cmdState r2) with CMD_WAIT. cbn [is_wait].
           rewrite Esc. reflexivity.
      * intros D. rewrite D.
        set (r2 := set_cursors rs CMD_WAIT 0 0).
        change (@nil byte) with (taken r2).
        apply (IH r2).
        -- unfold good, wf_reader, cursors_ok, r2, rs, CMDBUF_LEN.
           cbn [set_cursors set_cmdBuf _cmdState _nextIn _nextOut _cmdBuf
                  _pEsp8266Client].
           repeat split; try assumption; try lia.
        -- reflexivity.
        -- reflexivity.
      * intros [D Hcl]. rewrite D. cbn [read_matches settles].
        exists rs. split; [reflexivity|].
        unfold good, wf_reader, cursors_ok, tentative, taken, rs, CMDBUF_LEN.
        cbn [set_cmdBuf _cmdState _nextIn _nextOut _cmdBuf _pEsp8266Client].
        rewrite Hcl. cbn [is_wait].
        repeat split; try assumption; try lia.
        apply stored_taken. exact Hlen.
Qed.

Lemma read_loop_reset (r : ESP8266HttpRead) (src : list byte) :
  _cmdState r = CMD_WAIT -> _nextOut r = _nextIn r ->
  read_loop r src = read_loop (set_cursors r CMD_WAIT 0 0) src.
Proof.
  intros W E.
  destruct src; cbn [read_loop set_cursors _nextIn _nextOut _cmdState _cmdBuf];
    rewrite W, E, Z.ltb_irrefl; cbn [is_wait]; reflexivity.
Qed.

Lemma skipn_taken_nil (r : ESP8266HttpRead) :
  0 <= _nextIn r -> _nextOut r = _nextIn r ->
  skipn (Z.to_nat (_nextOut r)) (taken r) = [].
Proof.
  intros H E. apply skipn_all2. unfold taken. rewrite length_firstn, E. lia.
Qed.

(** Every call of [read()] on a bound reader hands out the next byte of the
    view, or ends the way the view ends. *)
Lemma read_view (w : world) :
  good (fst w) -> read_matches (view w) (read w).
Proof.
  destruct w as [r src]. cbn [fst]. intros G.
  pose proof G as (Hb & Hwf & Hc & Hn & Hs).
  unfold read. cbn [fst snd]. rewrite Hb. cbn [negb].
  destruct (Z.lt_ge_cases (_nextOut r) (_nextIn r)) as [Hlt|Hge].
  - destruct (read_loop_flush r src Hwf (conj Hc (conj Hn Hs)) Hlt) as [c [Hq Hr]].
    unfold view. cbn [fst snd].
    destruct (scan (_cmdState r) (tentative r) src) as [o e] eqn:Esc.
    rewrite Hq, Hr. cbn [app read_matches].
    eexists; split; [reflexivity|]. split.
    + unfold good, wf_reader, cursors_ok in *.
      cbn [fst set_cursors _cmdState _nextIn _nextOut _cmdBuf _pEsp8266Client].
      repeat split; try assumption; try lia. intros W. specialize (Hs W). lia.
    + unfold view, tentative, taken in *.
      cbn [fst snd set_cursors _cmdState _nextIn _nextOut _cmdBuf].
      rewrite Esc. reflexivity.
  - assert (E : _nextOut r = _nextIn r) by lia.
    assert (Q : queue r = []).
    { unfold queue. destruct (is_wait (_cmdState r)); [|reflexivity].
      apply skipn_taken_nil; lia. }
    unfold view. cbn [fst snd]. rewrite Q. cbn [app].
    destruct (_cmdState r) eqn:W.
    1: { rewrite read_loop_reset by assumption.
         set (r0 := set_cursors r CMD_WAIT 0 0).
         assert (V : scan CMD_WAIT (tentative r) src
                     = scan (_cmdState r0) (taken r0) src).
         { unfold tentative. rewrite W. reflexivity. }
         destruct (scan CMD_WAIT (tentative r) src) as [o e] eqn:Esc.
         rewrite V. cbn [app].
         apply read_loop_pull; try reflexivity.
         unfold good, wf_reader, cursors_ok, r0, CMDBUF_LEN in *.
         cbn [set_cursors _cmdState _nextIn _nextOut _cmdBuf _pEsp8266Client].
         repeat split; try assumption; try lia. }
    all: rewrite <- W;
      replace (tentative r) with (taken r)
        by (unfold tentative; rewrite W; reflexivity);
      destruct (scan (_cmdState r) (taken r) src) as [o e] eqn:Esc;
      rewrite <- Esc; apply read_loop_pull;
        [exact G | exact E | rewrite W; discriminate].
Qed.

(** ** Reading until exhaustion against the view *)

Lemma int_of_byte_nonneg (b : byte) : 0 <= int_of_byte b.
Proof. unfold int_of_byte. lia. Qed.

Lemma drain_view (o : list byte) :
  forall fuel w e,
    good (fst w) -> view w = (o, e) -> (length o < fuel)%nat ->
    exists tail, drain fuel w = (ints o, tail) /\ settles e tail.
Proof.
  induction o as [|c o IH]; intros fuel w e G V F;
    (destruct fuel as [|fuel]; [cbn [length] in F; lia|]);
    pose proof (read_view w G) as R; rewrite V in R; cbn [read_matches] in R;
    cbn [drain].
  - destruct e as [s t|t rest|]; cbn [settles] in R.
    + destruct R as (r' & -> & R). cbn [Z.ltb Z.compare READ_TIMEOUT].
      eexists; split; [reflexivity|]. exists r'. now split.
    + destruct R as (r' & -> & R). cbn [Z.ltb Z.compare READ_CLOSED].
      eexists; split; [reflexivity|]. exists r'. now split.
    + rewrite R. eexists; split; reflexivity.
  - destruct R as (w' & -> & G' & V').
    destruct (Z.ltb_spec (int_of_byte c) 0) as [Hneg|_].
    { pose proof (int_of_byte_nonneg c). lia. }
    destruct (IH fuel w' e G' V') as (tail & D & S).
    { cbn [length] in F. lia. }
    rewrite D. exists tail. split; [reflexivity|exact S].
Qed.

Lemma scan_length (src : list byte) :
  forall s t, (length (fst (scan s t src)) <= length t + length src)%nat.
Proof.
  induction src as [|b src IH]; intros s t; cbn [scan].
  - cbn. lia.
  - destruct (20 <=? length t)%nat; [cbn; lia|].
    destruct (next s b) as [s'| | |].
    + specialize (IH s' (t ++ [b])). rewrite length_app in IH.
      cbn [length] in *. lia.
    + specialize (IH CMD_WAIT []).
      destruct (scan CMD_WAIT [] src) as [o e]. cbn [fst length] in *.
      rewrite length_app. cbn [length]. lia.
    + specialize (IH CMD_WAIT []). cbn [length] in *. lia.
    + cbn. lia.
Qed.

(** ** Control sequences and the transition table *)

Lemma has_ipd_command_suffix (a l : list byte) :
  has_ipd_command (a ++ l) = false -> has_ipd_command l = false.
Proof.
  induction a as [|x a IH]; [trivial|].
  cbn [app has_ipd_command]. intros H.
  apply orb_false_iff in H. apply IH, H.
Qed.

Lemma has_closed_suffix (a l : list byte) :
  has_closed (a ++ l) = false -> has_closed l = false.
Proof.
  induction a as [|x a IH]; [trivial|].
  cbn [app has_closed]. intros H.
  apply orb_false_iff in H. apply IH, H.
Qed.

Lemma overlong_suffix (a l : list byte) :
  overlong (a ++ l) = false -> overlong l = false.
Proof.
  induction a as [|x a IH]; [trivial|].
  cbn [app overlong]. intros H.
  apply orb_false_iff in H. apply IH, H.
Qed.

Lemma clean_suffix (a l : list byte) : clean (a ++ l) = true -> clean l = true.
Proof.
  unfold clean. intros H. apply andb_true_iff in H. destruct H as [H1 H2].
  apply negb_true_iff in H1, H2.
  rewrite (has_ipd_command_suffix _ _ H1), (has_closed_suffix _ _ H2).
  reflexivity.
Qed.

Lemma has_colon_app (a l : list byte) :
  has_colon (a ++ l) = has_colon a || has_colon l.
Proof. apply existsb_app. Qed.

Lemma ipd_field_command (f rest : list byte) :
  has_ipd_command (IPD ++ f ++ ":"%char :: rest) = true.
Proof.
  cbn. rewrite has_colon_app. cbn. now rewrite orb_true_r.
Qed.

Lemma ipd_field_overlong (f : list byte) (b : byte) (rest : list byte) :
  has_colon f = false -> (14 <= length f)%nat ->
  overlong (IPD ++ f ++ b :: rest) = true.
Proof.
  intros Hc Hl.
  change (IPD ++ f ++ b :: rest) with (LF :: (bytes "+IPD," ++ f ++ b :: rest)).
  cbn [overlong]. apply orb_true_iff. left.
  change (skipn 6 (LF :: bytes "+IPD," ++ f ++ b :: rest)) with (f ++ b :: rest).
  change (starts_with IPD (LF :: bytes "+IPD," ++ f ++ b :: rest)) with true.
  cbn [andb].
  assert (L : (15 <=? length (f ++ b :: rest))%nat = true).
  { apply Nat.leb_le. rewrite length_app. cbn [length]. lia. }
  rewrite L. cbn [andb].
  rewrite firstn_app.
  assert (C : has_colon (firstn 14 f) = false).
  { unfold has_colon in *.
    destruct (existsb (Ascii.eqb ":") (firstn 14 f)) eqn:E; [|reflexivity].
    apply existsb_exists in E. destruct E as (x & Hin & Hx).
    assert (X : existsb (Ascii.eqb ":") f = true).
    { apply existsb_exists. exists x. split; [|exact Hx].
      rewrite <- (firstn_skipn 14 f). apply in_or_app. now left. }
    congruence. }
  replace (14 - length f)%nat with 0%nat by lia.
  rewrite firstn_O, app_nil_r, C. reflexivity.
Qed.

Lemma clean_app_assoc (t : list byte) (b : byte) (src : list byte) :
  (t ++ [b]) ++ src = t ++ b :: src.
Proof. rewrite <- app_assoc. reflexivity. Qed.

(** On a clean input that fits the buffer the recogniser only ever flushes:
    what it hands out, followed by what it still holds, is the input. *)
Lemma scan_clean (src : list byte) :
  forall s t,
    chain s t -> clean (t ++ src) = true -> overlong (t ++ src) = false ->
    exists o s' t',
      scan s t src = (o, AtTimeout s' t') /\ o ++ t' = t ++ src /\ chain s' t'.
Proof.
  induction src as [|b src IH]; intros s t C Hcl Hov.
  - exists [], s, t. cbn [scan app]. rewrite app_nil_r. now repeat split.
  - assert (Flushed :
      exists o s' t',
        (let (o0, e0) := scan CMD_WAIT [] src in (t ++ b :: o0, e0))
          = (o, AtTimeout s' t')
        /\ o ++ t' = t ++ b :: src /\ chain s' t').
    { destruct (IH CMD_WAIT []) as (o & s' & t' & E & A & C'); [reflexivity| | |].
      - cbn [app]. apply (clean_suffix (t ++ [b])).
        now rewrite clean_app_assoc.
      - cbn [app]. apply (overlong_suffix (t ++ [b])).
        now rewrite clean_app_assoc.
      - exists (t ++ b :: o), s', t'. rewrite E. cbn [app] in A.
        repeat split; try assumption.
        rewrite <- app_assoc. cbn [app]. now rewrite A. }
    assert (Advanced : forall s', chain s' (t ++ [b]) ->
      exists o s'' t',
        scan s' (t ++ [b]) src = (o, AtTimeout s'' t')
        /\ o ++ t' = t ++ b :: src /\ chain s'' t').
    { intros s' C'.
      destruct (IH s' (t ++ [b]) C') as (o & s'' & t' & E & A & C'');
        try (now rewrite clean_app_assoc).
      exists o, s'', t'. rewrite clean_app_assoc in A. now repeat split. }
    cbn [scan].
    destruct s.
    1-6, 8-14:
      cbn in C; subst t;
      match goal with
      | |- context [(20 <=? length ?l)%nat] =>
          change (20 <=? length l)%nat with false
      end;
      unfold next, expect;
      repeat match goal with
        | |- context [Ascii.eqb ?x ?c] =>
            is_var x; destruct (Ascii.eqb_spec x c); [subst x|]
        end;
      first [ exact Flushed
            | apply Advanced; reflexivity
            | apply Advanced; exists []; split; reflexivity
            | exfalso; unfold clean in Hcl; apply andb_true_iff in Hcl;
              destruct Hcl as [_ Hcl]; cbn in Hcl; discriminate ].
    destruct C as (f & -> & Hf).
    destruct (Nat.leb_spec 20 (length (IPD ++ f))) as [L|L].
    + exfalso.
      rewrite <- app_assoc in Hov.
      rewrite ipd_field_overlong in Hov; try discriminate; try assumption.
      rewrite length_app in L. cbn [IPD bytes list_ascii_of_string length] in L.
      lia.
    + unfold next. destruct (Ascii.eqb_spec b ":") as [->|Hb].
      * exfalso. unfold clean in Hcl. rewrite <- app_assoc in Hcl.
        rewrite ipd_field_command in Hcl. discriminate.
      * apply Advanced. exists (f ++ [b]). split.
        -- now rewrite app_assoc.
        -- rewrite has_colon_app, Hf. unfold has_colon. cbn [existsb orb].
           destruct (Ascii.eqb_spec ":" b); [congruence|reflexivity].
Qed.

(** ** Facts about [scan] used for the filter's claims *)

Lemma scan_app (pre post : list byte) :
  forall s t o s' t',
    scan s t pre = (o, AtTimeout s' t') ->
    scan s t (pre ++ post) =
      (let (o2, e) := scan s' t' post in (o ++ o2, e)).
Proof.
  induction pre as [|b pre IH]; intros s t o s' t' H.
  - cbn [scan] in H. injection H as <- <- <-. cbn [app].
    destruct (scan s t post). reflexivity.
  - cbn [scan app] in *.
    destruct (20 <=? length t)%nat; [discriminate|].
    destruct (next s b) as [s1| | |].
    + apply IH. exact H.
    + destruct (scan CMD_WAIT [] pre) as [o1 e1] eqn:E1.
      injection H as <- ->.
      rewrite (IH _ _ _ _ _ E1).
      destruct (scan s' t' post) as [o2 e2].
      rewrite <- app_assoc. reflexivity.
    + apply IH. exact H.
    + discriminate.
Qed.

(** The literal of a state, read from idle, leads to that state. *)
Lemma scan_seen (s : CmdState) (rest : list byte) :
  scan CMD_WAIT [] (seen s ++ rest) = scan s (seen s) rest.
Proof. destruct s; reflexivity. Qed.

Lemma seen_short (s : CmdState) : (20 <=? length (seen s))%nat = false.
Proof. destruct s; reflexivity. Qed.

Lemma settles_code (e : ending) (tail : outcome (Z * world)) :
  settles e tail -> returned tail = ending_code e.
Proof.
  destruct e; cbn [settles]; intros H.
  - destruct H as (r' & -> & _). reflexivity.
  - destruct H as (r' & -> & _). reflexivity.
  - subst tail. reflexivity.
Qed.

Lemma scan_after_idle (pre post : list byte) :
  snd (scan CMD_WAIT [] pre) = AtTimeout CMD_WAIT [] ->
  scan CMD_WAIT [] (pre ++ post) =
    (fst (scan CMD_WAIT [] pre) ++ fst (scan CMD_WAIT [] post),
     snd (scan CMD_WAIT [] post)).
Proof.
  intros H. destruct (scan CMD_WAIT [] pre) as [o e] eqn:E. cbn [snd] in H.
  subst e. rewrite (scan_app _ post _ _ _ _ _ E).
  destruct (scan CMD_WAIT [] post). reflexivity.
Qed.

(** ** A reader begun on an input *)

Section Begun.

Variable r : ESP8266HttpRead.
Variable timeoutMs : Z.
Hypothesis Hwf : wf_reader r.

Lemma start_good (input : list byte) : good (fst (start r timeoutMs input)).
Proof.
  unfold good, wf_reader, cursors_ok, start, begin, CMDBUF_LEN in *.
  cbn. repeat split; try assumption; try lia.
Qed.

Lemma start_view (input : list byte) :
  view (start r timeoutMs input) = scan CMD_WAIT [] input.
Proof.
  unfold view, start, begin, queue, tentative, taken. cbn.
  destruct (scan CMD_WAIT [] input). reflexivity.
Qed.

(** [filtered] never runs out of fuel: it delivers what [scan] delivers
    and ends as [scan] ends. *)
Lemma filtered_scan (input : list byte) :
  exists tail,
    filtered r timeoutMs input = (ints (fst (scan CMD_WAIT [] input)), tail)
    /\ settles (snd (scan CMD_WAIT [] input)) tail.
Proof.
  unfold filtered. apply drain_view.
  - apply start_good.
  - rewrite start_view. destruct (scan CMD_WAIT [] input); reflexivity.
  - pose proof (scan_length input CMD_WAIT []). cbn [length] in *. lia.
Qed.

Lemma delivered_scan (input : list byte) :
  delivered r timeoutMs input = ints (fst (scan CMD_WAIT [] input)).
Proof.
  destruct (filtered_scan input) as (tail & E & _).
  unfold delivered. rewrite E. reflexivity.
Qed.

Lemma final_code_scan (input : list byte) :
  returned (snd (filtered r timeoutMs input))
  = ending_code (snd (scan CMD_WAIT [] input)).
Proof.
  destruct (filtered_scan input) as (tail & E & S).
  rewrite E. cbn [snd]. apply settles_code. exact S.
Qed.

Lemma filtered_idle (pre : list byte) :
  ends_idle (snd (filtered r timeoutMs pre)) = true ->
  snd (scan CMD_WAIT [] pre) = AtTimeout CMD_WAIT [].
Proof.
  intros I. destruct (filtered_scan pre) as (tail & E & S).
  rewrite E in I. cbn [snd] in I.
  destruct (snd (scan CMD_WAIT [] pre)) as [s t|t rest|]; cbn [settles] in S.
  - destruct S as (r' & -> & _ & Hs & Ht & _). cbn [ends_idle] in I.
    apply andb_true_iff in I. destruct I as [_ I].
    unfold tentative in Ht. rewrite I in Ht. subst t.
    destruct (_cmdState r'); try discriminate. subst s. reflexivity.
  - destruct S as (r' & -> & _). cbn in I. discriminate.
  - subst tail. discriminate.
Qed.

(** What [filtered] gives on a clean input that fits the buffer. *)
Lemma filtered_clean (input : list byte) :
  clean input = true -> overlong input = false ->
  exists out r',
    filtered r timeoutMs input = (out, Ret (READ_TIMEOUT, (r', [])))
    /\ out ++ ints (tentative r') = ints input
    /\ chain (_cmdState r') (tentative r').
Proof.
  intros Hc Ho.
  destruct (filtered_scan input) as (tail & E & S).
  destruct (scan_clean input CMD_WAIT [] eq_refl Hc Ho)
    as (o & s' & t' & Es & A & C).
  rewrite Es in E, S. cbn [fst snd settles] in *.
  destruct S as (r' & -> & _ & Hs & Ht & _).
  exists (ints o), r'. split; [exact E|]. subst s' t'. split; [|exact C].
  unfold ints. rewrite <- map_app. f_equal. exact A.
Qed.

Lemma delivered_clean_idle (input : list byte) :
  clean input = true -> overlong input = false ->
  ends_idle (snd (filtered r timeoutMs input)) = true ->
  delivered r timeoutMs input = ints input.
Proof.
  intros Hc Ho I.
  destruct (filtered_clean input Hc Ho) as (out & r' & E & A & _).
  unfold delivered. rewrite E in *. cbn [fst snd ends_idle] in *.
  apply andb_true_iff in I. destruct I as [_ I].
  unfold tentative in A. rewrite I in A. cbn [ints map] in A.
  rewrite app_nil_r in A. exact A.
Qed.

End Begun.

(* ================================================================== *)
(** * The stream filter *)
(* ================================================================== *)

(** C1 (as amended).  On an input with no occurrence of [\n+IPD,...:] or
    [0,CLOSED], and whose [\n+IPD,] fields fit [_cmdBuf], reading until the
    source runs dry ends in READ_TIMEOUT; the bytes delivered, followed by
    the partial match the reader still holds at that point, are the input,
    byte for byte and in order.  When the reader is idle at that point the
    bytes delivered are the whole input. *)
Theorem C1_clean_input_delivered
  (r : ESP8266HttpRead) (timeoutMs : Z) (input : list byte) :
  wf_reader r -> clean input = true -> overlong input = false ->
  exists out r',
    filtered r timeoutMs input = (out, Ret (READ_TIMEOUT, (r', [])))
    /\ out ++ ints (tentative r') = ints input
    /\ chain (_cmdState r') (tentative r')
    /\ (_cmdState r' = CMD_WAIT -> out = ints input).
Proof.
  intros H Hc Ho.
  destruct (filtered_clean r timeoutMs H input Hc Ho) as (out & r' & E & A & C).
  exists out, r'. repeat split; try assumption.
  intros W. unfold tentative in A. rewrite W in A. cbn in A.
  now rewrite app_nil_r in A.
Qed.

Lemma C1_clean_input_delivered_witness :
  exists out r',
    filtered new_reader 1000 (bytes "A" ++ LF :: bytes "+IPXB")
      = (out, Ret (READ_TIMEOUT, (r', [])))
    /\ out ++ ints (tentative r') = ints (bytes "A" ++ LF :: bytes "+IPXB")
    /\ chain (_cmdState r') (tentative r')
    /\ (_cmdState r' = CMD_WAIT -> out = ints (bytes "A" ++ LF :: bytes "+IPXB")).
Proof.
  apply (C1_clean_input_delivered new_reader 1000
           (bytes "A" ++ LF :: bytes "+IPXB")); reflexivity.
Defined.

(** C1 as stated fails: a clean input that ends in a newline loses that
    newline (it is held as a possible start of [\n+IPD,]), and a clean input
    with an unterminated, long [\n+IPD,] field runs off the buffer. *)
Lemma C1_counterexample :
  (clean (bytes "A" ++ [LF]) = true
   /\ filtered new_reader 1000 (bytes "A" ++ [LF])
      = ([65], Ret (READ_TIMEOUT,
                    (mkReader true 1000 CMD_NL (LF :: repeat Ascii.zero 19) 1 1,
                     [])))
   /\ delivered new_reader 1000 (bytes "A" ++ [LF]) <> ints (bytes "A" ++ [LF]))
  /\ (clean (IPD ++ bytes "123456789012345") = true
      /\ filtered new_reader 1000 (IPD ++ bytes "123456789012345")
         = ([], OutOfBounds)).
Proof.
  split; [split; [reflexivity|split; [reflexivity|]]|split; reflexivity].
  vm_compute. discriminate.
Qed.

(** C2 (as amended).  Where the reader is idle once the bytes before the
    insertion point are read, inserting [\n+IPD,5:] there changes neither
    the bytes delivered nor the way the reading ends; on a clean original
    stream that fits the buffer and leaves the reader idle, what is
    delivered is the original stream. *)
Theorem C2_ipd_elided_when_idle
  (r : ESP8266HttpRead) (timeoutMs : Z) (pre post : list byte) :
  wf_reader r ->
  ends_idle (snd (filtered r timeoutMs pre)) = true ->
  delivered r timeoutMs (pre ++ IPD5 ++ post) = delivered r timeoutMs (pre ++ post)
  /\ returned (snd (filtered r timeoutMs (pre ++ IPD5 ++ post)))
     = returned (snd (filtered r timeoutMs (pre ++ post)))
  /\ (clean (pre ++ post) = true -> overlong (pre ++ post) = false ->
      ends_idle (snd (filtered r timeoutMs (pre ++ post))) = true ->
      delivered r timeoutMs (pre ++ IPD5 ++ post) = ints (pre ++ post)).
Proof.
  intros H I. pose proof (filtered_idle r timeoutMs H pre I) as P.
  assert (E : scan CMD_WAIT [] (pre ++ IPD5 ++ post)
              = scan CMD_WAIT [] (pre ++ post)).
  { rewrite (scan_after_idle pre (IPD5 ++ post) P),
      (scan_after_idle pre post P). reflexivity. }
  assert (D : delivered r timeoutMs (pre ++ IPD5 ++ post)
              = delivered r timeoutMs (pre ++ post)).
  { rewrite (delivered_scan r timeoutMs H (pre ++ IPD5 ++ post)),
      (delivered_scan r timeoutMs H (pre ++ post)). now rewrite E. }
  split; [exact D|]. split.
  - rewrite (final_code_scan r timeoutMs H (pre ++ IPD5 ++ post)),
      (final_code_scan r timeoutMs H (pre ++ post)). now rewrite E.
  - intros Hc Ho I'. rewrite D. now apply delivered_clean_idle.
Qed.

Lemma C2_ipd_elided_when_idle_witness :
  delivered new_reader 1000 (bytes "AB" ++ IPD5 ++ bytes "CD")
  = delivered new_reader 1000 (bytes "AB" ++ bytes "CD")
  /\ returned (snd (filtered new_reader 1000 (bytes "AB" ++ IPD5 ++ bytes "CD")))
     = returned (snd (filtered new_reader 1000 (bytes "AB" ++ bytes "CD")))
  /\ (clean (bytes "AB" ++ bytes "CD") = true ->
      overlong (bytes "AB" ++ bytes "CD") = false ->
      ends_idle (snd (filtered new_reader 1000 (bytes "AB" ++ bytes "CD"))) = true ->
      delivered new_reader 1000 (bytes "AB" ++ IPD5 ++ bytes "CD")
      = ints (bytes "AB" ++ bytes "CD")).
Proof.
  apply (C2_ipd_elided_when_idle new_reader 1000 (bytes "AB") (bytes "CD"));
    reflexivity.
Defined.

(** C2 as stated fails: a clean stream that ends in a newline is delivered
    without it, with or without the insertion; and an insertion right after
    a byte that opened a tentative match (here a newline) is not elided. *)
Lemma C2_counterexample :
  (clean (bytes "A" ++ [LF]) = true
   /\ delivered new_reader 1000 (IPD5 ++ bytes "A" ++ [LF]) = ints (bytes "A")
   /\ delivered new_reader 1000 (IPD5 ++ bytes "A" ++ [LF])
      <> ints (bytes "A" ++ [LF]))
  /\ (clean (bytes "A" ++ LF :: bytes "B") = true
      /\ delivered new_reader 1000 ((bytes "A" ++ [LF]) ++ IPD5 ++ bytes "B")
         = ints ((bytes "A" ++ [LF]) ++ IPD5 ++ bytes "B")
      /\ delivered new_reader 1000 ((bytes "A" ++ [LF]) ++ IPD5 ++ bytes "B")
         <> ints (bytes "A" ++ LF :: bytes "B")).
Proof.
  repeat split; try reflexivity; vm_compute; discriminate.
Qed.

(** Not only [\n+IPD,5:]: any [\n+IPD,] command whose field leaves room for
    its colon is swallowed whole from an idle reader. *)
Lemma scan_absorb (f2 : list byte) :
  forall f1 post,
    has_colon f2 = false ->
    (length (IPD ++ f1) + length f2 < 20)%nat ->
    scan CMD_COMMA (IPD ++ f1) (f2 ++ ":"%char :: post) = scan CMD_WAIT [] post.
Proof.
  induction f2 as [|b f2 IH]; intros f1 post Hc L; cbn [app scan].
  - destruct (Nat.leb_spec 20 (length (IPD ++ f1))); [cbn [length] in L; lia|].
    reflexivity.
  - cbn [length] in L.
    destruct (Nat.leb_spec 20 (length (IPD ++ f1))); [lia|].
    unfold has_colon in Hc. cbn [existsb] in Hc.
    apply orb_false_iff in Hc. destruct Hc as [Hb Hc].
    unfold next. rewrite Ascii.eqb_sym, Hb.
    rewrite <- app_assoc. apply IH; [exact Hc|].
    rewrite !length_app in *. cbn [length] in *. lia.
Qed.

Lemma ipd_command_elided
  (r : ESP8266HttpRead) (timeoutMs : Z) (pre field post : list byte) :
  wf_reader r ->
  ends_idle (snd (filtered r timeoutMs pre)) = true ->
  has_colon field = false -> (length field <= 13)%nat ->
  delivered r timeoutMs (pre ++ IPD ++ field ++ ":"%char :: post)
  = delivered r timeoutMs (pre ++ post).
Proof.
  intros H I Hc L. pose proof (filtered_idle r timeoutMs H pre I) as P.
  rewrite (delivered_scan r timeoutMs H (pre ++ IPD ++ field ++ ":"%char :: post)),
    (delivered_scan r timeoutMs H (pre ++ post)).
  rewrite (scan_after_idle pre (IPD ++ field ++ ":"%char :: post) P),
    (scan_after_idle pre post P).
  change (scan CMD_WAIT [] (IPD ++ field ++ ":"%char :: post))
    with (scan CMD_COMMA (IPD ++ []) (field ++ ":"%char :: post)).
  rewrite scan_absorb; [reflexivity|exact Hc|].
  cbn [IPD bytes list_ascii_of_string app length]. lia.
Qed.

Lemma read_after_closed (r' : ESP8266HttpRead) :
  good r' -> _cmdState r' = CMD_0_CLOSE -> _nextOut r' = _nextIn r' ->
  read (r', []) = Ret (READ_TIMEOUT, (r', [])).
Proof.
  intros (Hb & _) Hs He. unfold read. cbn [fst snd read_loop].
  rewrite Hb, Hs, He, Z.ltb_irrefl. reflexivity.
Qed.

(** C3 (as amended).  Where the reader is idle once the bytes before the
    literal are read, a stream ending in [0,CLOSED] delivers what those
    bytes deliver (the bytes themselves when they are clean and fit the
    buffer), then returns READ_CLOSED on the call that takes the final [D],
    with nothing of the source left; no byte of the literal is delivered,
    and later calls time out. *)
Theorem C3_closed_when_idle
  (r : ESP8266HttpRead) (timeoutMs : Z) (pre : list byte) :
  wf_reader r ->
  ends_idle (snd (filtered r timeoutMs pre)) = true ->
  exists r',
    filtered r timeoutMs (pre ++ CLOSED)
      = (delivered r timeoutMs pre, Ret (READ_CLOSED, (r', [])))
    /\ read (r', []) = Ret (READ_TIMEOUT, (r', []))
    /\ (clean pre = true -> overlong pre = false ->
        delivered r timeoutMs pre = ints pre).
Proof.
  intros H I. pose proof (filtered_idle r timeoutMs H pre I) as P.
  destruct (filtered_scan r timeoutMs H (pre ++ CLOSED)) as (tail & E & S).
  rewrite (scan_after_idle pre CLOSED P) in E, S.
  change (scan CMD_WAIT [] CLOSED)
    with (@nil byte, AtClosed (bytes "0,CLOSE") []) in E, S.
  cbn [fst snd settles] in E, S. rewrite app_nil_r in E.
  destruct S as (r' & -> & G & Hs & _ & He).
  exists r'. split; [|split].
  - rewrite E. now rewrite delivered_scan.
  - now apply read_after_closed.
  - intros Hc Ho. now apply delivered_clean_idle.
Qed.

Lemma C3_closed_when_idle_witness :
  exists r',
    filtered new_reader 1000 (bytes "AB" ++ CLOSED)
      = (delivered new_reader 1000 (bytes "AB"), Ret (READ_CLOSED, (r', [])))
    /\ read (r', []) = Ret (READ_TIMEOUT, (r', []))
    /\ (clean (bytes "AB") = true -> overlong (bytes "AB") = false ->
        delivered new_reader 1000 (bytes "AB") = ints (bytes "AB")).
Proof.
  apply (C3_closed_when_idle new_reader 1000 (bytes "AB")); reflexivity.
Defined.

(** C3 as stated fails: after an unterminated [\n+IPD,] the literal is
    absorbed with the field and the reading times out; after an earlier
    [0,CLOSED] the signal comes at the earlier literal, with the rest of the
    stream unread; and a literal that follows a byte which opened a
    tentative match (here a [0]) is delivered as data. *)
Lemma C3_counterexample :
  filtered new_reader 1000 (IPD ++ CLOSED)
  = ([], Ret (READ_TIMEOUT,
              (mkReader true 1000 CMD_COMMA
                 (IPD ++ CLOSED ++ repeat Ascii.zero 6) 14 14, [])))
  /\ (exists r', filtered new_reader 1000 (CLOSED ++ bytes "AB" ++ CLOSED)
                 = ([], Ret (READ_CLOSED, (r', bytes "AB" ++ CLOSED))))
  /\ (exists r', filtered new_reader 1000 (bytes "0" ++ CLOSED)
                 = (ints (bytes "0" ++ CLOSED), Ret (READ_TIMEOUT, (r', [])))).
Proof.
  split; [reflexivity|]. split; eexists; vm_compute; reflexivity.
Qed.

(** C4 (as amended).  A tentative match that fails is flushed literally
    and in order.  A match starts where the reader is idle, here after
    [pre]; the part of the literal matched so far ([seen s]) followed by a
    byte [x] that does not continue it is delivered as is, [x] included,
    between what [pre] delivers and what [post] delivers, the reader going
    on from idle after [x].  The whole stream comes out unchanged when
    moreover [pre] and [post] are clean, fit the buffer, and [post] leaves
    the reader idle at its end.  In particular [A\n+IPXB] is delivered
    unchanged. *)
Theorem C4_failed_match_flushed
  (r : ESP8266HttpRead) (timeoutMs : Z) (pre post : list byte)
  (s : CmdState) (x : byte) :
  wf_reader r ->
  ends_idle (snd (filtered r timeoutMs pre)) = true ->
  next s x = Flush ->
  delivered r timeoutMs (pre ++ seen s ++ x :: post)
  = delivered r timeoutMs pre ++ ints (seen s ++ [x]) ++ delivered r timeoutMs post
  /\ (clean pre = true -> overlong pre = false ->
      clean post = true -> overlong post = false ->
      ends_idle (snd (filtered r timeoutMs post)) = true ->
      delivered r timeoutMs (pre ++ seen s ++ x :: post)
      = ints (pre ++ seen s ++ x :: post))
  /\ delivered r timeoutMs (bytes "A" ++ LF :: bytes "+IPXB")
     = ints (bytes "A" ++ LF :: bytes "+IPXB").
Proof.
  intros H I N. pose proof (filtered_idle r timeoutMs H pre I) as P.
  assert (D : delivered r timeoutMs (pre ++ seen s ++ x :: post)
              = delivered r timeoutMs pre ++ ints (seen s ++ [x])
                ++ delivered r timeoutMs post);
    [|split; [exact D|split]].
  - rewrite (delivered_scan r timeoutMs H (pre ++ seen s ++ x :: post)),
      (delivered_scan r timeoutMs H pre), (delivered_scan r timeoutMs H post).
    rewrite (scan_after_idle pre (seen s ++ x :: post) P). cbn [fst].
    rewrite scan_seen. cbn [scan]. rewrite seen_short, N.
    destruct (scan CMD_WAIT [] post) as [o e]. cbn [fst].
    unfold ints. rewrite !map_app. cbn [map app].
    rewrite <- !app_assoc. reflexivity.
  - intros Hc1 Ho1 Hc2 Ho2 I2. rewrite D.
    rewrite (delivered_clean_idle r timeoutMs H pre Hc1 Ho1 I),
      (delivered_clean_idle r timeoutMs H post Hc2 Ho2 I2).
    unfold ints. rewrite !map_app. cbn [map app].
    rewrite <- !app_assoc. reflexivity.
  - rewrite (delivered_scan r timeoutMs H _). reflexivity.
Qed.

Lemma C4_failed_match_flushed_witness :
  delivered new_reader 1000 (bytes "A" ++ seen CMD_P ++ "X"%char :: bytes "B")
  = delivered new_reader 1000 (bytes "A") ++ ints (seen CMD_P ++ ["X"%char])
    ++ delivered new_reader 1000 (bytes "B")
  /\ (clean (bytes "A") = true -> overlong (bytes "A") = false ->
      clean (bytes "B") = true -> overlong (bytes "B") = false ->
      ends_idle (snd (filtered new_reader 1000 (bytes "B"))) = true ->
      delivered new_reader 1000 (bytes "A" ++ seen CMD_P ++ "X"%char :: bytes "B")
      = ints (bytes "A" ++ seen CMD_P ++ "X"%char :: bytes "B"))
  /\ delivered new_reader 1000 (bytes "A" ++ LF :: bytes "+IPXB")
     = ints (bytes "A" ++ LF :: bytes "+IPXB").
Proof.
  apply (C4_failed_match_flushed new_reader 1000 (bytes "A") (bytes "B")
           CMD_P "X"%char); reflexivity.
Defined.

(** C4 as stated fails: in [A\n+IPX\n] the match of [\n+IP] fails at [X] and
    is flushed literally, yet the output is not the input: the newline at
    the end is held back as the possible start of a new match.  Nor is it
    when a command follows the failed match: that command is elided. *)
Lemma C4_counterexample :
  (next CMD_P "X"%char = Flush
   /\ clean (bytes "A" ++ seen CMD_P ++ "X"%char :: [LF]) = true
   /\ overlong (bytes "A" ++ seen CMD_P ++ "X"%char :: [LF]) = false
   /\ delivered new_reader 1000 (bytes "A" ++ seen CMD_P ++ "X"%char :: [LF])
      = ints (bytes "A" ++ seen CMD_P ++ ["X"%char])
   /\ delivered new_reader 1000 (bytes "A" ++ seen CMD_P ++ "X"%char :: [LF])
      <> ints (bytes "A" ++ seen CMD_P ++ "X"%char :: [LF]))
  /\ (delivered new_reader 1000
        (bytes "A" ++ seen CMD_P ++ "X"%char :: IPD5 ++ bytes "B")
      = ints (bytes "A" ++ seen CMD_P ++ "X"%char :: bytes "B")
      /\ delivered new_reader 1000
           (bytes "A" ++ seen CMD_P ++ "X"%char :: IPD5 ++ bytes "B")
         <> ints (bytes "A" ++ seen CMD_P ++ "X"%char :: IPD5 ++ bytes "B")).
Proof.
  split; [|split; [reflexivity|vm_compute; discriminate]].
  split; [reflexivity|]. split; [reflexivity|]. split; [reflexivity|].
  split; [reflexivity|vm_compute; discriminate].
Qed.

(** C7.  After [end()], [read()] returns READ_ERROR at once: the reader
    (state, buffer, both cursors) and the source are as they were, for any
    number of calls. *)
Theorem C7_read_after_end (r : ESP8266HttpRead) (src : list byte) (n : nat) :
  read (end_ r, src) = Ret (READ_ERROR, (end_ r, src))
  /\ reads n (end_ r, src) = Ret (repeat READ_ERROR n, (end_ r, src)).
Proof.
  split; [reflexivity|].
  induction n as [|n IH]; [reflexivity|].
  cbn [reads repeat].
  change (read (end_ r, src)) with (Ret (READ_ERROR, (end_ r, src))).
  cbv iota. rewrite IH. reflexivity.
Qed.

(* ================================================================== *)
(** * The operations layered on the filter *)
(* ================================================================== *)

(** A reader object with its 20 cells spelled out, whatever they hold. *)
Ltac spell_buffer r H :=
  destruct r as [?client ?tmo ?st buf ?nin ?nout];
  unfold wf_reader, CMDBUF_LEN in H; cbn [_cmdBuf] in H;
  do 20 (destruct buf as [|? buf]; [cbn [length] in H; lia|]);
  destruct buf; [clear H|cbn [length] in H; lia].

Ltac spell_fuel fuel :=
  repeat (destruct fuel as [|fuel]; [lia|]).




(** The other forms [readDouble()] accepts, and the missing terminator. *)
Example readDouble_forms :
  returned (readDouble 8 (start new_reader 1000 (bytes ".2Y"))) = Some 0.2%float
  /\ returned (readDouble 8 (start new_reader 1000 (bytes "15.Z")))
     = Some 15%float
  /\ returned (readDouble 8 (start new_reader 1000 (bytes "34 ")))
     = Some 34%float
  /\ returned (readDouble 8 (start new_reader 1000 (bytes "15")))
     = Some DBL_MAX
  /\ returned (readDouble 8 (start new_reader 1000 (bytes ".X")))
     = Some DBL_MAX.
Proof. repeat split; vm_compute; reflexivity. Qed.

(** ** Chars and bytes *)

Lemma int_of_byte_range (b : byte) : 0 <= int_of_byte b < 256.
Proof.
  unfold int_of_byte. pose proof (N_ascii_bounded b). lia.
Qed.

Lemma to_char_int_inj (a b : byte) :
  to_char (int_of_byte a) = to_char (int_of_byte b) -> a = b.
Proof.
  intros H.
  pose proof (int_of_byte_range a) as Ra. pose proof (int_of_byte_range b) as Rb.
  assert (E : int_of_byte a = int_of_byte b).
  { unfold to_char in H. revert H.
    generalize (int_of_byte a) (int_of_byte b) Ra Rb. clear. intros x y Rx Ry H.
    Z.div_mod_to_equations. lia. }
  unfold int_of_byte in E. apply N2Z.inj in E.
  rewrite <- (ascii_N_embedding a), <- (ascii_N_embedding b). now rewrite E.
Qed.


(** ** read(buf, count) against the view *)

Lemma read_buf_view (n : nat) :
  forall buf i w o e,
    good (fst w) -> view w = (o, e) ->
    ((n <= length o)%nat ->
     exists w',
       read_buf_from buf i n w = Ret ((true, pokes buf i (chars (firstn n o))), w')
       /\ good (fst w') /\ view w' = (skipn n o, e))
    /\ ((length o < n)%nat -> e <> AtOverflow ->
        exists buf' w', read_buf_from buf i n w = Ret ((false, buf'), w')).
Proof.
  induction n as [|n IH]; intros buf i w o e G V.
  - split; [|cbn; lia]. intros _. exists w. cbn. unfold ret.
    split; [reflexivity|split; assumption].
  - pose proof (read_view w G) as R. rewrite V in R.
    cbn [read_buf_from]. unfold bind.
    destruct o as [|c o]; cbn [read_matches] in R.
    + split; [cbn [length]; lia|]. intros _ Ne.
      destruct e as [s t|t rest|]; cbn [settles] in R.
      * destruct R as (r' & -> & _). eexists _, _. reflexivity.
      * destruct R as (r' & -> & _). eexists _, _. reflexivity.
      * now elim Ne.
    + destruct R as (w' & -> & G' & V').
      destruct (Z.ltb_spec (int_of_byte c) 0) as [Hneg|_].
      { pose proof (int_of_byte_nonneg c). lia. }
      destruct (IH (poke buf i (to_char (int_of_byte c))) (S i) w' o e G' V')
        as [IH1 IH2].
      split.
      * intros L. cbn [length] in L. destruct IH1 as (w'' & E & G'' & V''); [lia|].
        exists w''. cbn [firstn chars map pokes skipn].
        split; [exact E|split; assumption].
      * intros L Ne. cbn [length] in L. apply IH2; [lia|exact Ne].
Qed.

(** ** Short inputs hold no control sequence *)

Lemma starts_with_length (lit l : list byte) :
  starts_with lit l = true -> (length lit <= length l)%nat.
Proof.
  revert l. induction lit as [|c lit IH]; intros l H; cbn [length]; [lia|].
  destruct l as [|b l]; [discriminate|]. cbn [starts_with] in H.
  apply andb_true_iff in H. destruct H as [_ H]. apply IH in H.
  cbn [length]. lia.
Qed.

Lemma has_ipd_command_length (l : list byte) :
  has_ipd_command l = true -> (7 <= length l)%nat.
Proof.
  induction l as [|b l IH]; [discriminate|]. cbn [has_ipd_command]. intros H.
  apply orb_true_iff in H. destruct H as [H|H].
  - apply andb_true_iff in H. destruct H as [H C].
    apply starts_with_length in H.
    change (length IPD) with 6%nat in H.
    destruct (skipn 6 (b :: l)) as [|x rest] eqn:E; [discriminate|].
    assert (L : length (skipn 6 (b :: l)) = S (length rest))
      by (rewrite E; reflexivity).
    rewrite length_skipn in L. lia.
  - apply IH in H. cbn [length]. lia.
Qed.

Lemma has_closed_length (l : list byte) :
  has_closed l = true -> (8 <= length l)%nat.
Proof.
  induction l as [|b l IH]; [discriminate|]. cbn [has_closed]. intros H.
  apply orb_true_iff in H. destruct H as [H|H].
  - apply starts_with_length in H. exact H.
  - apply IH in H. cbn [length]. lia.
Qed.

Lemma overlong_length (l : list byte) :
  overlong l = true -> (21 <= length l)%nat.
Proof.
  induction l as [|b l IH]; [discriminate|]. cbn [overlong]. intros H.
  apply orb_true_iff in H. destruct H as [H|H].
  - apply andb_true_iff in H. destruct H as [H _].
    apply andb_true_iff in H. destruct H as [_ H].
    apply Nat.leb_le in H. rewrite length_skipn in H. lia.
  - apply IH in H. cbn [length]. lia.
Qed.

Lemma short_clean (l : list byte) :
  (length l < 7)%nat -> clean l = true /\ overlong l = false.
Proof.
  intros L. unfold clean.
  destruct (has_ipd_command l) eqn:E1.
  { apply has_ipd_command_length in E1. lia. }
  destruct (has_closed l) eqn:E2.
  { apply has_closed_length in E2. lia. }
  destruct (overlong l) eqn:E3.
  { apply overlong_length in E3. lia. }
  split; reflexivity.
Qed.

(** ** findDate *)

Lemma bind_eq {A B : Type} (c : M A) (k : A -> M B) (w w' : world) (a : A) :
  c w = Ret (a, w') -> bind c k w = k a w'.
Proof. intros E. unfold bind. now rewrite E. Qed.






Lemma view_idle (r : ESP8266HttpRead) (src : list byte) :
  good r -> _cmdState r = CMD_WAIT -> _nextOut r = _nextIn r ->
  view (r, src) = scan CMD_WAIT [] src.
Proof.
  intros (_ & _ & Hc & _) W E. unfold view, queue, tentative. cbn [fst snd].
  rewrite W. cbn [is_wait]. rewrite skipn_taken_nil by lia.
  destruct (scan CMD_WAIT [] src). reflexivity.
Qed.

(** Three bytes read from an idle reader with three bytes of source left
    are those three bytes, or the read fails. *)
Lemma read_three (r : ESP8266HttpRead) (buf : list Z) (t1 t2 t3 : byte) :
  good r -> _cmdState r = CMD_WAIT -> _nextOut r = _nextIn r ->
  (exists w',
      read_buf buf 3 (r, [t1; t2; t3])
      = Ret ((true, pokes buf 0 (chars [t1; t2; t3])), w'))
  \/ (exists buf' w', read_buf buf 3 (r, [t1; t2; t3]) = Ret ((false, buf'), w')).
Proof.
  intros G W E.
  pose proof (view_idle r [t1; t2; t3] G W E) as V.
  destruct (short_clean [t1; t2; t3]) as [Hc Ho]; [cbn; lia|].
  destruct (scan_clean [t1; t2; t3] CMD_WAIT [] eq_refl Hc Ho)
    as (o & s' & t' & Es & A & _).
  rewrite Es in V. cbn [app] in A.
  destruct (read_buf_view 3 buf 0%nat (r, [t1; t2; t3]) o (AtTimeout s' t') G V)
    as [R1 R2].
  destruct (Nat.le_gt_cases 3 (length o)) as [L|L].
  - left. destruct (R1 L) as (w' & R & _). exists w'.
    assert (Lo : length (o ++ t') = 3%nat) by (rewrite A; reflexivity).
    rewrite length_app in Lo.
    assert (t' = []) by (destruct t'; [reflexivity|cbn [length] in Lo; lia]).
    subst t'. rewrite app_nil_r in A. subst o. exact R.
  - right. apply R2; [exact L|discriminate].
Qed.

Lemma ints_inj (a b : list byte) : ints a = ints b -> a = b.
Proof.
  revert b. induction a as [|x a IH]; intros [|y b] E; try discriminate;
    [reflexivity|].
  cbn [ints map] in E. injection E as E1 E2. f_equal.
  - apply to_char_int_inj. now rewrite E1.
  - now apply IH.
Qed.






(** Time zones written in other ways: all fail, whatever follows them. *)
Example findDate_other_zones :
  returned (findDate 64
              (start new_reader 1000
                 (bytes "Date: Fri, 21 Aug 2015 22:06:40 +0000")))
  = Some (false, mkDate 5 2015 8 21 22 6 40)
  /\ returned (findDate 64
                 (start new_reader 1000
                    (bytes "Date: Fri, 21 Aug 2015 22:06:40 PST" ++ [CR; LF])))
     = Some (false, mkDate 5 2015 8 21 22 6 40)
  /\ returned (findDate 64
                 (start new_reader 1000
                    (bytes "Date: Fri, 21 Aug 2015 22:06:40 GM")))
     = Some (false, mkDate 5 2015 8 21 22 6 40).
Proof. repeat split; vm_compute; reflexivity. Qed.

(** ** readDouble and the byte after the number *)

(** C6 (as amended).  [readDouble()] on [11.9X] returns 11.9 and has read
    the [X] as well: the reader is idle with nothing left to flush and the
    source stands after the [X].  From there the calls of [read()] deliver
    what a freshly begun reader delivers for the bytes after the [X], and
    end with the same code.  So the next [read()] returns the byte after
    the [X] when that byte is neither a newline nor a [0]; READ_TIMEOUT when
    nothing follows, or only a newline; READ_CLOSED when [0,CLOSED]
    follows. *)
Theorem C6_readDouble_reads_past_number
  (r : ESP8266HttpRead) (timeoutMs : Z) (fuel : nat) (rest : list byte) :
  wf_reader r -> (2 <= fuel)%nat ->
  let after :=
    mkReader true timeoutMs CMD_WAIT ("X"%char :: tl (_cmdBuf r)) 1 1 in
  readDouble fuel (start r timeoutMs (bytes "11.9X" ++ rest))
  = Ret (11.9%float, (after, rest))
  /\ fst (drain (S (length rest)) (after, rest)) = delivered r timeoutMs rest
  /\ returned (snd (drain (S (length rest)) (after, rest)))
     = returned (snd (filtered r timeoutMs rest))
  /\ match rest with
     | [] => returned (read (after, rest)) = Some READ_TIMEOUT
     | b :: _ =>
         next CMD_WAIT b = Flush ->
         returned (read (after, rest)) = Some (int_of_byte b)
     end
  /\ returned (read (after, [LF])) = Some READ_TIMEOUT
  /\ returned (read (after, CLOSED)) = Some READ_CLOSED.
Proof.
  intros H F after.
  assert (G : good after).
  { unfold good, wf_reader, cursors_ok, after, CMDBUF_LEN in *.
    cbn [_pEsp8266Client _cmdBuf _cmdState _nextIn _nextOut length].
    destruct (_cmdBuf r); cbn [length tl] in *; [lia|].
    repeat split; lia. }
  pose proof (view_idle after rest G eq_refl eq_refl) as V.
  split; [|split; [|split; [|split; [|split]]]].
  - subst after. spell_buffer r H. spell_fuel fuel.
    destruct fuel, rest; vm_compute; reflexivity.
  - rewrite (delivered_scan r timeoutMs H rest).
    destruct (scan CMD_WAIT [] rest) as [o e] eqn:Es.
    destruct (drain_view o (S (length rest)) (after, rest) e G V)
      as (tail & D & _).
    + pose proof (scan_length rest CMD_WAIT []) as Ls. rewrite Es in Ls.
      cbn [fst length] in Ls. lia.
    + rewrite D. reflexivity.
  - rewrite (final_code_scan r timeoutMs H rest).
    destruct (scan CMD_WAIT [] rest) as [o e] eqn:Es.
    destruct (drain_view o (S (length rest)) (after, rest) e G V)
      as (tail & D & St).
    + pose proof (scan_length rest CMD_WAIT []) as Ls. rewrite Es in Ls.
      cbn [fst length] in Ls. lia.
    + rewrite D. cbn [snd]. apply settles_code. exact St.
  - pose proof (read_view (after, rest) G) as R. rewrite V in R.
    destruct rest as [|b rest'].
    + cbn [scan read_matches settles] in R. destruct R as (r' & -> & _).
      reflexivity.
    + intros Hb. cbn [scan length Nat.leb] in R. rewrite Hb in R.
      destruct (scan CMD_WAIT [] rest') as [o e]. cbn [app read_matches] in R.
      destruct R as (w' & -> & _). reflexivity.
  - subst after. spell_buffer r H. reflexivity.
  - subst after. spell_buffer r H. reflexivity.
Qed.

Lemma C6_readDouble_reads_past_number_witness :
  let after :=
    mkReader true 1000 CMD_WAIT ("X"%char :: tl (_cmdBuf new_reader)) 1 1 in
  readDouble 2 (start new_reader 1000 (bytes "11.9X" ++ bytes "Y"))
  = Ret (11.9%float, (after, bytes "Y"))
  /\ fst (drain (S (length (bytes "Y"))) (after, bytes "Y"))
     = delivered new_reader 1000 (bytes "Y")
  /\ returned (snd (drain (S (length (bytes "Y"))) (after, bytes "Y")))
     = returned (snd (filtered new_reader 1000 (bytes "Y")))
  /\ (next CMD_WAIT "Y"%char = Flush ->
      returned (read (after, bytes "Y")) = Some (int_of_byte "Y"%char))
  /\ returned (read (after, [LF])) = Some READ_TIMEOUT
  /\ returned (read (after, CLOSED)) = Some READ_CLOSED.
Proof.
  apply (C6_readDouble_reads_past_number new_reader 1000 2%nat (bytes "Y"));
    [reflexivity|lia].
Defined.

(** C6 as stated fails: after [readDouble()] on [11.9X] the next [read()]
    does not return [X]. *)
Lemma C6_counterexample :
  ~ (exists v w w',
        readDouble 5 (start new_reader 1000 (bytes "11.9X")) = Ret (v, w)
        /\ read w = Ret (int_of_byte "X"%char, w')).
Proof.
  intros (v & w & w' & R1 & R2).
  vm_compute in R1. injection R1 as <- <-.
  vm_compute in R2. discriminate.
Qed.

(* ================================================================== *)
(** * The cursor invariant *)
(* ================================================================== *)

Lemma keeps_read : keeps read.
Proof.
  intros [r src] a w' Hwf Hc R. cbn [fst] in *.
  destruct (_pEsp8266Client r) eqn:B.
  - assert (G : good r) by (repeat split; try assumption; apply Hc).
    pose proof (read_view (r, src) G) as V. rewrite R in V.
    destruct (view (r, src)) as [[|c o] e]; cbn [read_matches] in V.
    + destruct e as [s t|t rest|]; cbn [settles] in V.
      * destruct V as (r' & E & (_ & W' & C') & _). injection E as -> ->.
        now split.
      * destruct V as (r' & E & (_ & W' & C') & _). injection E as -> ->.
        now split.
      * discriminate.
    + destruct V as (w'' & E & (_ & W' & C') & _). injection E as -> ->.
      now split.
  - unfold read in R. cbn [fst] in R. rewrite B in R. cbn [negb] in R.
    injection R as <- <-. now split.
Qed.

Lemma keeps_ret {A : Type} (a : A) : keeps (ret a).
Proof. intros w a' w' Hwf Hc R. injection R as <- <-. now split. Qed.

Lemma keeps_bind {A B : Type} (c : M A) (k : A -> M B) :
  keeps c -> (forall a, keeps (k a)) -> keeps (bind c k).
Proof.
  intros Kc Kk w b w' Hwf Hc R. unfold bind in R.
  destruct (c w) as [[a w1]| |] eqn:E; try discriminate.
  destruct (Kc w a w1 Hwf Hc E) as [Hwf1 Hc1].
  exact (Kk a w1 b w' Hwf1 Hc1 R).
Qed.

Lemma keeps_fail {A : Type} : keeps (fun _ : world => @OutOfFuel (A * world)).
Proof. intros w a w' _ _ R. discriminate. Qed.

Lemma keeps_read_buf_from (todo : nat) :
  forall buf pNext, keeps (read_buf_from buf pNext todo).
Proof.
  induction todo as [|todo IH]; intros buf pNext; cbn [read_buf_from].
  - apply keeps_ret.
  - apply keeps_bind; [apply keeps_read|]. intros ch.
    destruct (ch <? 0); [apply keeps_ret|apply IH].
Qed.

Lemma keeps_find_from (fuel : nat) :
  forall ppattern p, keeps (find_from fuel ppattern p).
Proof.
  induction fuel as [|fuel IH]; intros ppattern [|pc p]; cbn [find_from];
    try apply keeps_ret; try apply keeps_fail.
  apply keeps_bind; [apply keeps_read|]. intros ch.
  destruct (ch <? 0); [apply keeps_ret|].
  destruct (to_char ch =? pc); apply IH.
Qed.

Lemma keeps_integer_part (fuel : nat) :
  forall saw result ch, keeps (integer_part fuel saw result ch).
Proof.
  induction fuel as [|fuel IH]; intros saw result ch; cbn [integer_part];
    destruct (is_digit (to_char ch));
    try apply keeps_ret; try apply keeps_fail.
  apply keeps_bind; [apply keeps_read|]. intros ch'. apply IH.
Qed.

Lemma keeps_fraction_part (fuel : nat) :
  forall saw result scale ch, keeps (fraction_part fuel saw result scale ch).
Proof.
  induction fuel as [|fuel IH]; intros saw result scale ch;
    cbn [fraction_part]; destruct (is_digit (to_char ch));
    try apply keeps_ret; try apply keeps_fail.
  apply keeps_bind; [apply keeps_read|]. intros ch'. apply IH.
Qed.

Ltac keeps_step :=
  lazymatch goal with
  | |- keeps (bind _ _) => apply keeps_bind; [|intros ?]
  | |- keeps (ret _) => apply keeps_ret
  | |- keeps read => apply keeps_read
  | |- keeps (read_buf _ _) => apply keeps_read_buf_from
  | |- keeps (find _ _) => apply keeps_find_from
  | |- keeps (integer_part _ _ _ _) => apply keeps_integer_part
  | |- keeps (fraction_part _ _ _ _ _) => apply keeps_fraction_part
  | |- keeps (if ?b then _ else _) => destruct b
  | |- keeps (match ?x with (_, _) => _ end) => destruct x
  | |- keeps (match ?x with Some _ => _ | None => _ end) => destruct x
  end.

Lemma keeps_findDate (fuel : nat) : keeps (findDate fuel).
Proof. unfold findDate. cbv zeta. repeat keeps_step. Qed.

Lemma keeps_readDouble (fuel : nat) : keeps (readDouble fuel).
Proof. unfold readDouble. repeat keeps_step. Qed.

Lemma keeps_perform (c : call) (r r' : ESP8266HttpRead) (src : list byte) :
  wf_reader r -> cursors_ok r -> perform c r src = Ret r' ->
  wf_reader r' /\ cursors_ok r'.
Proof.
  intros Hwf Hc P.
  assert (K : forall (A : Type) (op : M A),
             keeps op -> object_after (op (r, src)) = Ret r' ->
             wf_reader r' /\ cursors_ok r').
  { intros A op Kop E. unfold object_after in E.
    destruct (op (r, src)) as [[a w']| |] eqn:R; try discriminate.
    injection E as <-. exact (Kop (r, src) a w' Hwf Hc R). }
  destruct c as [tm| | |buf count|fuel pat|fuel|fuel]; cbn [perform] in P.
  - injection P as <-. split; [exact Hwf|].
    unfold cursors_ok, CMDBUF_LEN. cbn. repeat split; try lia.
  - injection P as <-. split; [exact Hwf|exact Hc].
  - exact (K _ read keeps_read P).
  - exact (K _ (read_buf buf count) (keeps_read_buf_from count buf 0%nat) P).
  - exact (K _ (find fuel pat) (keeps_find_from fuel pat pat) P).
  - exact (K _ (findDate fuel) (keeps_findDate fuel) P).
  - exact (K _ (readDouble fuel) (keeps_readDouble fuel) P).
Qed.

(** Through a session in which every call stayed within the buffer, the
    buffer keeps its 20 cells and the cursors stay ordered and within it. *)
Lemma session_ok (cs : list (call * list byte)) :
  forall r r',
    wf_reader r -> cursors_ok r -> session r cs = Ret r' ->
    wf_reader r' /\ cursors_ok r'.
Proof.
  induction cs as [|[c src] cs IH]; intros r r' Hwf Hc S; cbn [session] in S.
  - injection S as <-. now split.
  - destruct (perform c r src) as [r1| |] eqn:P; try discriminate.
    destruct (keeps_perform c r r1 src Hwf Hc P) as [Hwf1 Hc1].
    exact (IH r1 r' Hwf1 Hc1 S).
Qed.

(** C8 (as amended).  Take an object as constructed (both cursors 0, by the
    member initialisers) and any session on it.  Between calls, as long as
    every call so far has returned without storing outside [_cmdBuf], the
    read cursor is never ahead of the write cursor, and whenever the state
    is not idle the two are equal: bytes wait to be flushed only while the
    state is CMD_WAIT. *)
Theorem C8_cursor_invariant
  (r0 r : ESP8266HttpRead) (cs : list (call * list byte)) :
  wf_reader r0 -> _nextIn r0 = 0 -> _nextOut r0 = 0 ->
  session r0 cs = Ret r ->
  _nextOut r <= _nextIn r
  /\ (_cmdState r <> CMD_WAIT -> _nextOut r = _nextIn r).
Proof.
  intros Hwf Hi Ho S.
  assert (Hc : cursors_ok r0).
  { unfold cursors_ok, CMDBUF_LEN. rewrite Hi, Ho. repeat split; lia. }
  destruct (session_ok cs r0 r Hwf Hc S) as [_ (Hle & _ & Heq)].
  split; [lia|exact Heq].
Qed.

Lemma C8_cursor_invariant_witness :
  _nextOut after_failed_match <= _nextIn after_failed_match
  /\ (_cmdState after_failed_match <> CMD_WAIT ->
      _nextOut after_failed_match = _nextIn after_failed_match).
Proof.
  apply (C8_cursor_invariant new_reader after_failed_match
           [(Begin 1000, []); (Read, [LF; "X"%char])]);
    reflexivity.
Defined.

(** C8 as stated fails: after a failed tentative match the state is idle
    while the buffer still holds a byte to flush. *)
Lemma C8_counterexample :
  session new_reader [(Begin 1000, []); (Read, [LF; "X"%char])]
  = Ret after_failed_match
  /\ read (start new_reader 1000 [LF; "X"%char])
     = Ret (int_of_byte LF, (after_failed_match, []))
  /\ _cmdState after_failed_match = CMD_WAIT
  /\ _nextOut after_failed_match < _nextIn after_failed_match
  /\ queue after_failed_match = ["X"%char].
Proof.
  split; [reflexivity|]. split; [reflexivity|]. repeat split.
Qed.

(** What the invariant's proviso leaves out: a session in which a call
    stores outside the buffer ends there, and the invariant says nothing
    about the object it leaves. *)
Example session_overflow :
  session new_reader
    [(Begin 1000, []); (Read, IPD ++ bytes "12345678901234:")]
  = OutOfBounds.
Proof. reflexivity. Qed.

(* ================================================================== *)
(** * The capacity of the buffer *)
(* ================================================================== *)

Lemma snd_flush (t : list byte) (b : byte) (src : list byte) :
  snd (let (o, e) := scan CMD_WAIT [] src in (t ++ b :: o, e))
  = snd (scan CMD_WAIT [] src).
Proof. destruct (scan CMD_WAIT [] src). reflexivity. Qed.

(** While no [\n+IPD,] field outgrows the buffer, the recogniser never
    overflows, whatever else the input holds. *)
Lemma scan_safe (src : list byte) :
  forall s t,
    chain s t -> overlong (t ++ src) = false -> safe_end (snd (scan s t src)).
Proof.
  induction src as [|b src IH]; intros s t C Hov.
  - apply safe_timeout.
  - assert (Hsrc : overlong src = false).
    { apply (overlong_suffix (t ++ [b])). now rewrite clean_app_assoc. }
    assert (Flushed :
      safe_end (snd (let (o, e) := scan CMD_WAIT [] src in (t ++ b :: o, e)))).
    { rewrite snd_flush. now apply IH. }
    assert (Advanced : forall s', chain s' (t ++ [b]) ->
              safe_end (snd (scan s' (t ++ [b]) src))).
    { intros s' C'. apply IH; [exact C'|now rewrite clean_app_assoc]. }
    cbn [scan].
    destruct s.
    1-6, 8-14:
      cbn in C; subst t;
      match goal with
      | |- context [(20 <=? length ?l)%nat] =>
          change (20 <=? length l)%nat with false
      end;
      unfold next, expect;
      repeat match goal with
        | |- context [Ascii.eqb ?x ?c] =>
            is_var x; destruct (Ascii.eqb_spec x c); [subst x|]
        end;
      first [ exact Flushed
            | apply Advanced; reflexivity
            | apply Advanced; exists []; split; reflexivity
            | apply safe_closed; apply IH; [reflexivity|exact Hsrc] ].
    destruct C as (f & -> & Hf).
    destruct (Nat.leb_spec 20 (length (IPD ++ f))) as [L|L].
    + exfalso.
      rewrite <- app_assoc in Hov.
      rewrite ipd_field_overlong in Hov; try discriminate; try assumption.
      rewrite length_app in L. cbn [IPD bytes list_ascii_of_string length] in L.
      lia.
    + unfold next. destruct (Ascii.eqb_spec b ":") as [->|Hb].
      * now apply IH.
      * apply Advanced. exists (f ++ [b]). split.
        -- now rewrite app_assoc.
        -- rewrite has_colon_app, Hf. unfold has_colon. cbn [existsb orb].
           destruct (Ascii.eqb_spec ":" b); [congruence|reflexivity].
Qed.

Lemma view_snd (w : world) :
  snd (view w) = snd (scan (_cmdState (fst w)) (tentative (fst w)) (snd w)).
Proof.
  unfold view. destruct (scan (_cmdState (fst w)) (tentative (fst w)) (snd w)).
  reflexivity.
Qed.

(** Any number of calls on a safe view stays inside the buffer. *)
Lemma reads_safe (n : nat) :
  forall w, good (fst w) -> safe_end (snd (view w)) ->
            exists vs w', reads n w = Ret (vs, w').
Proof.
  induction n as [|n IH]; intros w G S.
  - exists [], w. reflexivity.
  - pose proof (read_view w G) as R. cbn [reads].
    destruct (view w) as [[|c o] e] eqn:V; cbn [snd read_matches] in *.
    + destruct S as [s t|t rest S]; cbn [settles] in R.
      * destruct R as (r' & -> & G' & Hs & Ht & He).
        destruct (IH (r', [])) as (vs & w' & E); [exact G'| |].
        { rewrite view_snd. cbn [fst snd scan]. apply safe_timeout. }
        rewrite E. eexists _, _. reflexivity.
      * destruct R as (r' & -> & G' & Hs & Ht & He).
        destruct (IH (r', rest)) as (vs & w' & E); [exact G'| |].
        { rewrite view_snd. cbn [fst snd]. rewrite Hs, Ht. exact S. }
        rewrite E. eexists _, _. reflexivity.
    + destruct R as (w1 & -> & G' & V').
      destruct (IH w1) as (vs & w' & E); [exact G'| |].
      { rewrite V'. exact S. }
      rewrite E. eexists _, _. reflexivity.
Qed.

(** C9.  A [\n+IPD,] field of 14 bytes already leaves the write cursor at
    20, one past the last cell, and the byte after it, here the colon, is
    stored outside the buffer.  Conversely, when no [\n+IPD,] in the input
    is followed by 15 or more bytes of which the first 14 hold no colon,
    reading never leaves the buffer: neither reading until the first result
    that is not a byte, nor any number of calls in a row. *)
Theorem C9_buffer_bounds
  (r : ESP8266HttpRead) (timeoutMs : Z) (input : list byte) (n : nat) :
  wf_reader r ->
  ((exists r',
       filtered r timeoutMs (IPD ++ bytes "12345678901234")
       = ([], Ret (READ_TIMEOUT, (r', [])))
       /\ _cmdState r' = CMD_COMMA /\ _nextIn r' = CMDBUF_LEN)
   /\ filtered r timeoutMs (IPD ++ bytes "12345678901234:") = ([], OutOfBounds))
  /\ (overlong input = false ->
      snd (filtered r timeoutMs input) <> OutOfBounds
      /\ exists vs w', reads n (start r timeoutMs input) = Ret (vs, w')).
Proof.
  intros H. split; [split|].
  - spell_buffer r H. eexists. split; [vm_compute; reflexivity|].
    split; reflexivity.
  - spell_buffer r H. vm_compute. reflexivity.
  - intros Ho.
    assert (S : safe_end (snd (scan CMD_WAIT [] input)))
      by (now apply scan_safe).
    split.
    + destruct (filtered_scan r timeoutMs H input) as (tail & E & St).
      rewrite E. cbn [snd].
      destruct S; cbn [settles] in St; destruct St as (r' & -> & _);
        discriminate.
    + apply reads_safe.
      * now apply start_good.
      * now rewrite start_view.
Qed.

Lemma C9_buffer_bounds_witness :
  ((exists r',
       filtered new_reader 1000 (IPD ++ bytes "12345678901234")
       = ([], Ret (READ_TIMEOUT, (r', [])))
       /\ _cmdState r' = CMD_COMMA /\ _nextIn r' = CMDBUF_LEN)
   /\ filtered new_reader 1000 (IPD ++ bytes "12345678901234:")
      = ([], OutOfBounds))
  /\ (overlong (IPD ++ bytes "1234567890123:AB") = false ->
      snd (filtered new_reader 1000 (IPD ++ bytes "1234567890123:AB"))
        <> OutOfBounds
      /\ exists vs w',
           reads 5 (start new_reader 1000 (IPD ++ bytes "1234567890123:AB"))
           = Ret (vs, w')).
Proof.
  apply (C9_buffer_bounds new_reader 1000 (IPD ++ bytes "1234567890123:AB") 5%nat).
  reflexivity.
Defined.

(* ================================================================== *)
(** * Further properties of read() *)
(* ================================================================== *)

Lemma dispatch_return (r r' : ESP8266HttpRead) (v : Z) :
  dispatch r = Return v r' -> v = READ_CLOSED.
Proof.
  pose proof (dispatch_next r) as D.
  destruct (next (_cmdState r) (cur r)) as [s'| | |]; intros E.
  - destruct D as [D _]. congruence.
  - congruence.
  - congruence.
  - destruct D as [D _]. congruence.
Qed.

Lemma read_loop_value (src : list byte) :
  forall r v w',
    read_loop r src = Ret (v, w') ->
    0 <= v < 256 \/ v = READ_TIMEOUT \/ v = READ_CLOSED.
Proof.
  induction src as [|b src IH]; intros r v w' R; cbn [read_loop] in R.
  - destruct (_nextOut r <? _nextIn r).
    + destruct (buf_load (_cmdBuf r) (_nextOut r)); [|discriminate].
      injection R as <- _. left. apply int_of_byte_range.
    + injection R as <- _. right. now left.
  - destruct (_nextOut r <? _nextIn r).
    + destruct (buf_load (_cmdBuf r) (_nextOut r)); [|discriminate].
      injection R as <- _. left. apply int_of_byte_range.
    + destruct (buf_store _ _ b) as [buf'|]; [|discriminate].
      destruct (dispatch _) as [r2|v2 r2] eqn:D.
      * exact (IH _ _ _ R).
      * injection R as <- _. right. right. exact (dispatch_return _ _ _ D).
Qed.

(** X1.  Whatever the reader and the source, [read()] returns a byte value
    0..255 or one of the three negative codes, never anything else. *)
Theorem read_value (w w' : world) (v : Z) :
  read w = Ret (v, w') ->
  0 <= v < 256 \/ v = READ_CLOSED \/ v = READ_TIMEOUT \/ v = READ_ERROR.
Proof.
  unfold read. destruct (negb (_pEsp8266Client (fst w))).
  - intros E. injection E as <- _. right. right. now right.
  - intros R. destruct (read_loop_value _ _ _ _ R) as [H|[H|H]]; auto.
Qed.

Lemma read_value_witness :
  0 <= 10 < 256 \/ 10 = READ_CLOSED \/ 10 = READ_TIMEOUT \/ 10 = READ_ERROR.
Proof.
  apply (read_value (start new_reader 1000 [LF; "X"%char])
           (after_failed_match, []) 10).
  reflexivity.
Defined.

(** ** Nothing is invented, doubled or reordered *)

Lemma subseq_refl {A : Type} (l : list A) : subseq l l.
Proof. induction l; constructor; assumption. Qed.

Lemma subseq_app_same {A : Type} (a l1 l2 : list A) :
  subseq l1 l2 -> subseq (a ++ l1) (a ++ l2).
Proof. intros H. induction a; cbn [app]; [exact H|now constructor]. Qed.

Lemma subseq_app_skip {A : Type} (a l1 l2 : list A) :
  subseq l1 l2 -> subseq l1 (a ++ l2).
Proof. intros H. induction a; cbn [app]; [exact H|now constructor]. Qed.

Lemma subseq_map {A B : Type} (f : A -> B) (l1 l2 : list A) :
  subseq l1 l2 -> subseq (map f l1) (map f l2).
Proof. induction 1; cbn [map]; constructor; assumption. Qed.

Lemma subseq_length {A : Type} (l1 l2 : list A) :
  subseq l1 l2 -> (length l1 <= length l2)%nat.
Proof. induction 1; cbn [length]; lia. Qed.

Lemma scan_subseq (src : list byte) :
  forall s t, subseq (fst (scan s t src)) (t ++ src).
Proof.
  induction src as [|b src IH]; intros s t; cbn [scan].
  - constructor.
  - destruct (20 <=? length t)%nat; [constructor|].
    destruct (next s b) as [s'| | |].
    + specialize (IH s' (t ++ [b])). now rewrite clean_app_assoc in IH.
    + specialize (IH CMD_WAIT []).
      destruct (scan CMD_WAIT [] src) as [o e]. cbn [fst app] in *.
      apply subseq_app_same. now constructor.
    + specialize (IH CMD_WAIT []). cbn [app] in IH.
      apply subseq_app_skip. now constructor.
    + constructor.
Qed.

(** X2.  Whatever the input, the bytes [read()] delivers are bytes of the input,
    in the order of the input, each at most once: the filter may withhold
    bytes but never invents, repeats or reorders one. *)
Theorem delivered_subseq
  (r : ESP8266HttpRead) (timeoutMs : Z) (input : list byte) :
  wf_reader r ->
  subseq (delivered r timeoutMs input) (ints input)
  /\ (length (delivered r timeoutMs input) <= length input)%nat.
Proof.
  intros H.
  assert (S : subseq (delivered r timeoutMs input) (ints input)).
  { rewrite (delivered_scan r timeoutMs H input). apply subseq_map.
    exact (scan_subseq input CMD_WAIT []). }
  split; [exact S|]. apply subseq_length in S.
  unfold ints in S. now rewrite length_map in S.
Qed.

Lemma delivered_subseq_witness :
  subseq (delivered new_reader 1000 (bytes "A" ++ IPD5 ++ bytes "B0"))
         (ints (bytes "A" ++ IPD5 ++ bytes "B0"))
  /\ (length (delivered new_reader 1000 (bytes "A" ++ IPD5 ++ bytes "B0"))
      <= length (bytes "A" ++ IPD5 ++ bytes "B0"))%nat.
Proof.
  apply (delivered_subseq new_reader 1000 (bytes "A" ++ IPD5 ++ bytes "B0")).
  reflexivity.
Defined.

(** ** Several calls against the view *)

Lemma queue_nil (r : ESP8266HttpRead) :
  good r -> _nextOut r = _nextIn r -> queue r = [].
Proof.
  intros (_ & _ & Hc & _) E. unfold queue.
  destruct (is_wait (_cmdState r)); [|reflexivity].
  apply skipn_taken_nil; lia.
Qed.

Lemma view_settled (r : ESP8266HttpRead) (src : list byte) :
  good r -> _nextOut r = _nextIn r ->
  view (r, src) = scan (_cmdState r) (tentative r) src.
Proof.
  intros G E. unfold view. cbn [fst snd]. rewrite (queue_nil r G E).
  destruct (scan (_cmdState r) (tentative r) src). reflexivity.
Qed.

Lemma tentative_length (r : ESP8266HttpRead) :
  good r -> (length (tentative r) <= 20)%nat.
Proof.
  intros (_ & Hwf & _). unfold tentative, taken, wf_reader, CMDBUF_LEN in *.
  destruct (is_wait (_cmdState r)); cbn [length]; [lia|].
  rewrite length_firstn. lia.
Qed.

Lemma reads_view (n : nat) :
  forall w o e,
    good (fst w) -> view w = (o, e) -> (n <= length o)%nat ->
    exists w',
      reads n w = Ret (ints (firstn n o), w')
      /\ good (fst w') /\ view w' = (skipn n o, e).
Proof.
  induction n as [|n IH]; intros w o e G V L.
  - exists w. now split.
  - destruct o as [|c o]; [cbn [length] in L; lia|].
    pose proof (read_view w G) as R. rewrite V in R. cbn [read_matches] in R.
    destruct R as (w1 & R & G1 & V1).
    destruct (IH w1 o e G1 V1) as (w' & E & G' & V'); [cbn [length] in L; lia|].
    exists w'. cbn [reads]. rewrite R, E. now split.
Qed.

(** X3.  A timeout loses nothing.  When reading an input ends in READ_TIMEOUT
    and bytes arrive later, going on with the same reader delivers, in all,
    what reading the whole at once delivers, and ends the same way. *)
Theorem timeout_is_transparent
  (r r' : ESP8266HttpRead) (timeoutMs : Z) (pre post : list byte) (o1 : list Z) :
  wf_reader r ->
  filtered r timeoutMs pre = (o1, Ret (READ_TIMEOUT, (r', []))) ->
  delivered r timeoutMs (pre ++ post)
  = o1 ++ fst (drain (21 + length post) (r', post))
  /\ returned (snd (filtered r timeoutMs (pre ++ post)))
     = returned (snd (drain (21 + length post) (r', post))).
Proof.
  intros H F.
  destruct (filtered_scan r timeoutMs H pre) as (tail & E & S).
  rewrite F in E. injection E as -> <-.
  destruct (scan CMD_WAIT [] pre) as [o e] eqn:Es. cbn [fst snd] in *.
  destruct e as [s t|t rest|]; cbn [settles] in S;
    [|destruct S as (r1 & E1 & _); discriminate|discriminate].
  destruct S as (r1 & E1 & G & Hs & Ht & He).
  injection E1 as <-.
  pose proof (scan_app pre post _ _ _ _ _ Es) as A.
  destruct (scan s t post) as [o2 e2] eqn:E2.
  destruct (drain_view o2 (21 + length post) (r', post) e2) as (tail & D & St).
  - exact G.
  - rewrite (view_settled r' post G He), Hs, Ht. exact E2.
  - pose proof (scan_length post s t) as L. rewrite E2 in L. cbn [fst] in L.
    pose proof (tentative_length r' G). rewrite Ht in *. lia.
  - rewrite D. cbn [fst snd]. split.
    + rewrite (delivered_scan r timeoutMs H (pre ++ post)), A. cbn [fst].
      unfold ints. apply map_app.
    + rewrite (final_code_scan r timeoutMs H (pre ++ post)), A. cbn [snd].
      symmetry. now apply settles_code.
Qed.

Lemma timeout_is_transparent_witness :
  delivered new_reader 1000 ((bytes "A" ++ [LF]) ++ bytes "+IB")
  = [65] ++ fst (drain (21 + length (bytes "+IB"))
                   (mkReader true 1000 CMD_NL (LF :: repeat Ascii.zero 19) 1 1,
                    bytes "+IB"))
  /\ returned (snd (filtered new_reader 1000 ((bytes "A" ++ [LF]) ++ bytes "+IB")))
     = returned (snd (drain (21 + length (bytes "+IB"))
                        (mkReader true 1000 CMD_NL
                           (LF :: repeat Ascii.zero 19) 1 1, bytes "+IB"))).
Proof.
  apply (timeout_is_transparent new_reader
           (mkReader true 1000 CMD_NL (LF :: repeat Ascii.zero 19) 1 1)
           1000 (bytes "A" ++ [LF]) (bytes "+IB") [65]);
    reflexivity.
Defined.

(** X4.  Reading on after READ_CLOSED.  The state is not reset when the closed
    signal is returned: if the caller reads again and a byte other than [D]
    arrives, the seven bytes [0,CLOSE] held in the buffer are handed out as
    data, followed by that byte. *)
Theorem reading_after_closed
  (r : ESP8266HttpRead) (timeoutMs : Z) (pre rest : list byte) (b : byte) :
  wf_reader r ->
  ends_idle (snd (filtered r timeoutMs pre)) = true ->
  b <> "D"%char ->
  exists r' w'',
    filtered r timeoutMs (pre ++ CLOSED ++ b :: rest)
    = (delivered r timeoutMs pre, Ret (READ_CLOSED, (r', b :: rest)))
    /\ reads 8 (r', b :: rest) = Ret (ints (bytes "0,CLOSE" ++ [b]), w'').
Proof.
  intros H I Hb. pose proof (filtered_idle r timeoutMs H pre I) as P.
  destruct (filtered_scan r timeoutMs H (pre ++ CLOSED ++ b :: rest))
    as (tail & E & S).
  rewrite (scan_after_idle pre (CLOSED ++ b :: rest) P) in E, S.
  change (scan CMD_WAIT [] (CLOSED ++ b :: rest))
    with (@nil byte, AtClosed (bytes "0,CLOSE") (b :: rest)) in E, S.
  cbn [fst snd settles] in E, S. rewrite app_nil_r in E.
  destruct S as (r' & -> & G & Hs & Ht & He).
  assert (V : view (r', b :: rest)
              = (bytes "0,CLOSE" ++ b :: fst (scan CMD_WAIT [] rest),
                 snd (scan CMD_WAIT [] rest))).
  { rewrite (view_settled r' (b :: rest) G He), Hs, Ht. cbn [scan].
    change (20 <=? length (bytes "0,CLOSE"))%nat with false.
    unfold next. destruct (Ascii.eqb_spec b "D"); [contradiction|].
    destruct (scan CMD_WAIT [] rest). reflexivity. }
  destruct (reads_view 8 (r', b :: rest) _ _ G V) as (w'' & R & _).
  { rewrite length_app. cbn [length bytes list_ascii_of_string]. lia. }
  exists r', w''. split.
  - rewrite E. now rewrite (delivered_scan r timeoutMs H pre).
  - rewrite R. reflexivity.
Qed.

Lemma reading_after_closed_witness :
  exists r' w'',
    filtered new_reader 1000 (bytes "AB" ++ CLOSED ++ "X"%char :: bytes "Y")
    = (delivered new_reader 1000 (bytes "AB"),
       Ret (READ_CLOSED, (r', "X"%char :: bytes "Y")))
    /\ reads 8 (r', "X"%char :: bytes "Y")
       = Ret (ints (bytes "0,CLOSE" ++ ["X"%char]), w'').
Proof.
  apply (reading_after_closed new_reader 1000 (bytes "AB") (bytes "Y") "X"%char);
    [reflexivity|reflexivity|discriminate].
Defined.

(* ================================================================== *)
(** * The layered operations only see what the filter delivers *)
(* ================================================================== *)

Lemma agrees_read : agrees read.
Proof.
  intros w1 w2 G1 G2 V. unfold alike.
  pose proof (read_view w1 G1) as R1. pose proof (read_view w2 G2) as R2.
  rewrite <- V in R2.
  destruct (view w1) as [[|c o] e]; cbn [read_matches] in R1, R2.
  - destruct e as [s t|t rest|]; cbn [settles] in R1, R2.
    + destruct R1 as (r1 & -> & Ga & Hs1 & Ht1 & He1).
      destruct R2 as (r2 & -> & Gb & Hs2 & Ht2 & He2).
      split; [reflexivity|]. split; [exact Ga|]. split; [exact Gb|].
      rewrite (view_settled r1 [] Ga He1), (view_settled r2 [] Gb He2).
      now rewrite Hs1, Ht1, Hs2, Ht2.
    + destruct R1 as (r1 & -> & Ga & Hs1 & Ht1 & He1).
      destruct R2 as (r2 & -> & Gb & Hs2 & Ht2 & He2).
      split; [reflexivity|]. split; [exact Ga|]. split; [exact Gb|].
      rewrite (view_settled r1 rest Ga He1), (view_settled r2 rest Gb He2).
      now rewrite Hs1, Ht1, Hs2, Ht2.
    + rewrite R1, R2. exact I.
  - destruct R1 as (wa & -> & Ga & Va). destruct R2 as (wb & -> & Gb & Vb).
    split; [reflexivity|]. split; [exact Ga|]. split; [exact Gb|].
    now rewrite Va, Vb.
Qed.

Lemma agrees_ret {A : Type} (a : A) : agrees (ret a).
Proof.
  intros w1 w2 G1 G2 V. unfold ret, alike.
  split; [reflexivity|]. split; [exact G1|]. split; [exact G2|exact V].
Qed.

Lemma agrees_fail {A : Type} :
  agrees (fun _ : world => @OutOfFuel (A * world)).
Proof. intros w1 w2 _ _ _. exact I. Qed.

Lemma agrees_bind {A B : Type} (c : M A) (k : A -> M B) :
  agrees c -> (forall a, agrees (k a)) -> agrees (bind c k).
Proof.
  intros Kc Kk w1 w2 G1 G2 V. unfold bind.
  specialize (Kc w1 w2 G1 G2 V). unfold alike in Kc.
  destruct (c w1) as [[a1 wa]| |], (c w2) as [[a2 wb]| |];
    try contradiction; try exact I.
  destruct Kc as (-> & Ga & Gb & Vab). exact (Kk a2 wa wb Ga Gb Vab).
Qed.

Lemma agrees_read_buf_from (todo : nat) :
  forall buf pNext, agrees (read_buf_from buf pNext todo).
Proof.
  induction todo as [|todo IH]; intros buf pNext; cbn [read_buf_from].
  - apply agrees_ret.
  - apply agrees_bind; [apply agrees_read|]. intros ch.
    destruct (ch <? 0); [apply agrees_ret|apply IH].
Qed.

Lemma agrees_find_from (fuel : nat) :
  forall ppattern p, agrees (find_from fuel ppattern p).
Proof.
  induction fuel as [|fuel IH]; intros ppattern [|pc p]; cbn [find_from];
    try apply agrees_ret; try apply agrees_fail.
  apply agrees_bind; [apply agrees_read|]. intros ch.
  destruct (ch <? 0); [apply agrees_ret|].
  destruct (to_char ch =? pc); apply IH.
Qed.

Lemma agrees_integer_part (fuel : nat) :
  forall saw result ch, agrees (integer_part fuel saw result ch).
Proof.
  induction fuel as [|fuel IH]; intros saw result ch; cbn [integer_part];
    destruct (is_digit (to_char ch));
    try apply agrees_ret; try apply agrees_fail.
  apply agrees_bind; [apply agrees_read|]. intros ch'. apply IH.
Qed.

Lemma agrees_fraction_part (fuel : nat) :
  forall saw result scale ch, agrees (fraction_part fuel saw result scale ch).
Proof.
  induction fuel as [|fuel IH]; intros saw result scale ch;
    cbn [fraction_part]; destruct (is_digit (to_char ch));
    try apply agrees_ret; try apply agrees_fail.
  apply agrees_bind; [apply agrees_read|]. intros ch'. apply IH.
Qed.

Ltac agrees_step :=
  lazymatch goal with
  | |- agrees (bind _ _) => apply agrees_bind; [|intros ?]
  | |- agrees (ret _) => apply agrees_ret
  | |- agrees read => apply agrees_read
  | |- agrees (read_buf _ _) => apply agrees_read_buf_from
  | |- agrees (find _ _) => apply agrees_find_from
  | |- agrees (integer_part _ _ _ _) => apply agrees_integer_part
  | |- agrees (fraction_part _ _ _ _ _) => apply agrees_fraction_part
  | |- agrees (if ?b then _ else _) => destruct b
  | |- agrees (match ?x with (_, _) => _ end) => destruct x
  | |- agrees (match ?x with Some _ => _ | None => _ end) => destruct x
  end.

Lemma agrees_findDate (fuel : nat) : agrees (findDate fuel).
Proof. unfold findDate. cbv zeta. repeat agrees_step. Qed.

Lemma agrees_readDouble (fuel : nat) : agrees (readDouble fuel).
Proof. unfold readDouble. repeat agrees_step. Qed.

Lemma alike_returned {A : Type} (o1 o2 : outcome (A * world)) :
  alike o1 o2 -> returned o1 = returned o2.
Proof.
  unfold alike. destruct o1 as [[a1 w1]| |], o2 as [[a2 w2]| |];
    try contradiction; try reflexivity.
  intros (-> & _). reflexivity.
Qed.

(** Two begun readers on inputs that [scan] treats alike give the same
    results in all four layered operations. *)
Lemma layered_alike
  (r1 r2 : ESP8266HttpRead) (t1 t2 : Z) (in1 in2 : list byte)
  (fuel count : nat) (ppattern buf : list Z) :
  wf_reader r1 -> wf_reader r2 ->
  scan CMD_WAIT [] in1 = scan CMD_WAIT [] in2 ->
  returned (read_buf buf count (start r1 t1 in1))
  = returned (read_buf buf count (start r2 t2 in2))
  /\ returned (find fuel ppattern (start r1 t1 in1))
     = returned (find fuel ppattern (start r2 t2 in2))
  /\ returned (findDate fuel (start r1 t1 in1))
     = returned (findDate fuel (start r2 t2 in2))
  /\ returned (readDouble fuel (start r1 t1 in1))
     = returned (readDouble fuel (start r2 t2 in2)).
Proof.
  intros H1 H2 E.
  assert (G1 := start_good r1 t1 H1 in1). assert (G2 := start_good r2 t2 H2 in2).
  assert (V : view (start r1 t1 in1) = view (start r2 t2 in2)).
  { now rewrite (start_view r1 t1 in1), (start_view r2 t2 in2). }
  repeat split; apply alike_returned.
  - exact (agrees_read_buf_from count buf 0%nat _ _ G1 G2 V).
  - exact (agrees_find_from fuel ppattern ppattern _ _ G1 G2 V).
  - exact (agrees_findDate fuel _ _ G1 G2 V).
  - exact (agrees_readDouble fuel _ _ G1 G2 V).
Qed.

(** X5.  [begin()] returns true and leaves no residue.  Whatever an earlier
    session left in the object (state, cursors, buffer contents, the old
    timeout), after [begin()] the bytes delivered, the final code and the
    results of [read(buf,n)], [find], [findDate] and [readDouble] depend on
    the input alone. *)
Theorem begin_leaves_no_residue
  (r1 r2 : ESP8266HttpRead) (t1 t2 : Z) (input : list byte)
  (fuel count : nat) (ppattern buf : list Z) :
  wf_reader r1 -> wf_reader r2 ->
  fst (begin r1 t1) = true
  /\ delivered r1 t1 input = delivered r2 t2 input
  /\ returned (snd (filtered r1 t1 input)) = returned (snd (filtered r2 t2 input))
  /\ returned (read_buf buf count (start r1 t1 input))
     = returned (read_buf buf count (start r2 t2 input))
  /\ returned (find fuel ppattern (start r1 t1 input))
     = returned (find fuel ppattern (start r2 t2 input))
  /\ returned (findDate fuel (start r1 t1 input))
     = returned (findDate fuel (start r2 t2 input))
  /\ returned (readDouble fuel (start r1 t1 input))
     = returned (readDouble fuel (start r2 t2 input)).
Proof.
  intros H1 H2. split; [reflexivity|]. split; [|split].
  - now rewrite (delivered_scan r1 t1 H1 input), (delivered_scan r2 t2 H2 input).
  - now rewrite (final_code_scan r1 t1 H1 input),
      (final_code_scan r2 t2 H2 input).
  - now apply layered_alike.
Qed.

Lemma begin_leaves_no_residue_witness :
  fst (begin after_failed_match 5) = true
  /\ delivered after_failed_match 5 sample_response
     = delivered new_reader 1000 sample_response
  /\ returned (snd (filtered after_failed_match 5 sample_response))
     = returned (snd (filtered new_reader 1000 sample_response))
  /\ returned (read_buf [0; 0; 0; 0] 4 (start after_failed_match 5 sample_response))
     = returned (read_buf [0; 0; 0; 0] 4 (start new_reader 1000 sample_response))
  /\ returned (find 64 (cstr "Date: ") (start after_failed_match 5 sample_response))
     = returned (find 64 (cstr "Date: ") (start new_reader 1000 sample_response))
  /\ returned (findDate 64 (start after_failed_match 5 sample_response))
     = returned (findDate 64 (start new_reader 1000 sample_response))
  /\ returned (readDouble 64 (start after_failed_match 5 sample_response))
     = returned (readDouble 64 (start new_reader 1000 sample_response)).
Proof.
  apply (begin_leaves_no_residue after_failed_match new_reader 5 1000
           sample_response 64%nat 4%nat (cstr "Date: ") [0; 0; 0; 0]);
    reflexivity.
Defined.

(** X6.  The layered operations see through an injected command.  With the
    reader idle at the insertion point, a [\n+IPD,] command with a field of
    at most 13 bytes changes the result of none of [read(buf,n)], [find],
    [findDate] and [readDouble]. *)
Theorem layered_ignore_ipd
  (r : ESP8266HttpRead) (timeoutMs : Z) (pre field post : list byte)
  (fuel count : nat) (ppattern buf : list Z) :
  wf_reader r ->
  ends_idle (snd (filtered r timeoutMs pre)) = true ->
  has_colon field = false -> (length field <= 13)%nat ->
  let injected := pre ++ IPD ++ field ++ ":"%char :: post in
  returned (read_buf buf count (start r timeoutMs injected))
  = returned (read_buf buf count (start r timeoutMs (pre ++ post)))
  /\ returned (find fuel ppattern (start r timeoutMs injected))
     = returned (find fuel ppattern (start r timeoutMs (pre ++ post)))
  /\ returned (findDate fuel (start r timeoutMs injected))
     = returned (findDate fuel (start r timeoutMs (pre ++ post)))
  /\ returned (readDouble fuel (start r timeoutMs injected))
     = returned (readDouble fuel (start r timeoutMs (pre ++ post))).
Proof.
  intros H I Hc L injected. apply layered_alike; try exact H.
  pose proof (filtered_idle r timeoutMs H pre I) as P. unfold injected.
  rewrite (scan_after_idle pre (IPD ++ field ++ ":"%char :: post) P),
    (scan_after_idle pre post P).
  change (scan CMD_WAIT [] (IPD ++ field ++ ":"%char :: post))
    with (scan CMD_COMMA (IPD ++ []) (field ++ ":"%char :: post)).
  rewrite scan_absorb; [reflexivity|exact Hc|].
  cbn [IPD bytes list_ascii_of_string app length]. lia.
Qed.

Lemma layered_ignore_ipd_witness :
  let injected :=
    bytes "Date: Fri, 21 A" ++ IPD ++ bytes "0,1475" ++ ":"%char ::
    bytes "ug 2015 22:06:40 GMT" in
  let plain := bytes "Date: Fri, 21 A" ++ bytes "ug 2015 22:06:40 GMT" in
  returned (read_buf [0; 0; 0; 0] 4 (start new_reader 1000 injected))
  = returned (read_buf [0; 0; 0; 0] 4 (start new_reader 1000 plain))
  /\ returned (find 64 (cstr "Aug") (start new_reader 1000 injected))
     = returned (find 64 (cstr "Aug") (start new_reader 1000 plain))
  /\ returned (findDate 64 (start new_reader 1000 injected))
     = returned (findDate 64 (start new_reader 1000 plain))
  /\ returned (readDouble 64 (start new_reader 1000 injected))
     = returned (readDouble 64 (start new_reader 1000 plain)).
Proof.
  apply (layered_ignore_ipd new_reader 1000 (bytes "Date: Fri, 21 A")
           (bytes "0,1475") (bytes "ug 2015 22:06:40 GMT") 64%nat 4%nat
           (cstr "Aug") [0; 0; 0; 0]);
    [reflexivity|reflexivity|reflexivity|cbn; lia].
Defined.

(* ================================================================== *)
(** * read(buf, count) *)
(* ================================================================== *)

Lemma read_buf_short (n : nat) :
  forall buf i w o e,
    good (fst w) -> view w = (o, e) -> (length o < n)%nat -> e <> AtOverflow ->
    exists w', read_buf_from buf i n w = Ret ((false, pokes buf i (chars o)), w').
Proof.
  induction n as [|n IH]; intros buf i w o e G V L Ne; [lia|].
  pose proof (read_view w G) as R. rewrite V in R.
  cbn [read_buf_from]. unfold bind.
  destruct o as [|c o]; cbn [read_matches] in R.
  - destruct e as [s t|t rest|]; cbn [settles] in R.
    + destruct R as (r' & -> & _). eexists. reflexivity.
    + destruct R as (r' & -> & _). eexists. reflexivity.
    + now elim Ne.
  - destruct R as (w' & -> & G' & V').
    destruct (Z.ltb_spec (int_of_byte c) 0) as [Hneg|_].
    { pose proof (int_of_byte_nonneg c). lia. }
    cbn [length] in L.
    destruct (IH (poke buf i (to_char (int_of_byte c))) (S i) w' o e G' V')
      as (w'' & E); [lia|exact Ne|].
    exists w''. exact E.
Qed.

Lemma chars_ints (l : list byte) : chars l = map to_char (ints l).
Proof. unfold chars, ints. now rewrite map_map. Qed.

(** X7.  [read(buf, count)] succeeds exactly when the filter still delivers at
    least [count] bytes: [buf[0..count-1]] then hold the first [count]
    delivered bytes in order and the reader goes on with the rest.  When
    fewer are delivered it returns false, with the bytes it did get at the
    start of [buf]. *)
Theorem read_buf_exact
  (r : ESP8266HttpRead) (timeoutMs : Z) (input : list byte)
  (buf : list Z) (count : nat) :
  wf_reader r ->
  ((count <= length (delivered r timeoutMs input))%nat ->
   exists w',
     read_buf buf count (start r timeoutMs input)
     = Ret ((true,
             pokes buf 0 (map to_char (firstn count (delivered r timeoutMs input)))),
            w')
     /\ fst (drain (S (length input)) w')
        = skipn count (delivered r timeoutMs input))
  /\ ((length (delivered r timeoutMs input) < count)%nat ->
      snd (filtered r timeoutMs input) <> OutOfBounds ->
      exists w',
        read_buf buf count (start r timeoutMs input)
        = Ret ((false, pokes buf 0 (map to_char (delivered r timeoutMs input))),
               w')).
Proof.
  intros H.
  pose proof (start_good r timeoutMs H input) as G.
  pose proof (start_view r timeoutMs input) as V.
  destruct (filtered_scan r timeoutMs H input) as (tail & F & St).
  rewrite (delivered_scan r timeoutMs H input).
  destruct (scan CMD_WAIT [] input) as [o e] eqn:Es. cbn [fst snd] in *.
  assert (Li : length (ints o) = length o) by (unfold ints; apply length_map).
  rewrite Li. split.
  - intros L.
    destruct (read_buf_view count buf 0%nat _ o e G V) as [R _].
    destruct (R L) as (w' & E & G' & V').
    exists w'. split.
    + unfold read_buf. rewrite E. unfold ints. rewrite firstn_map.
      now rewrite chars_ints.
    + destruct (drain_view (skipn count o) (S (length input)) w' e G' V')
        as (tail' & D & _).
      * pose proof (scan_length input CMD_WAIT []) as Ls. rewrite Es in Ls.
        cbn [fst length] in Ls. rewrite length_skipn. lia.
      * rewrite D. cbn [fst]. unfold ints. now rewrite skipn_map.
  - intros L Nf.
    destruct (read_buf_short count buf 0%nat _ o e G V L) as (w' & E).
    + intros ->. cbn [settles] in St. subst tail. rewrite F in Nf.
      now apply Nf.
    + exists w'. unfold read_buf. rewrite E. now rewrite chars_ints.
Qed.

Lemma read_buf_exact_witness :
  ((3 <= length (delivered new_reader 1000 (bytes "Fr" ++ IPD5 ++ bytes "i, 21")))%nat ->
   exists w',
     read_buf [0; 0; 0; 0] 3 (start new_reader 1000 (bytes "Fr" ++ IPD5 ++ bytes "i, 21"))
     = Ret ((true,
             pokes [0; 0; 0; 0] 0
               (map to_char
                  (firstn 3 (delivered new_reader 1000
                               (bytes "Fr" ++ IPD5 ++ bytes "i, 21"))))),
            w')
     /\ fst (drain (S (length (bytes "Fr" ++ IPD5 ++ bytes "i, 21"))) w')
        = skipn 3 (delivered new_reader 1000 (bytes "Fr" ++ IPD5 ++ bytes "i, 21")))
  /\ ((length (delivered new_reader 1000 (bytes "Fr" ++ IPD5 ++ bytes "i, 21")) < 3)%nat ->
      snd (filtered new_reader 1000 (bytes "Fr" ++ IPD5 ++ bytes "i, 21"))
        <> OutOfBounds ->
      exists w',
        read_buf [0; 0; 0; 0] 3
          (start new_reader 1000 (bytes "Fr" ++ IPD5 ++ bytes "i, 21"))
        = Ret ((false,
                pokes [0; 0; 0; 0] 0
                  (map to_char
                     (delivered new_reader 1000
                        (bytes "Fr" ++ IPD5 ++ bytes "i, 21")))),
               w')).
Proof.
  apply (read_buf_exact new_reader 1000 (bytes "Fr" ++ IPD5 ++ bytes "i, 21")
           [0; 0; 0; 0] 3%nat).
  reflexivity.
Defined.

(* ================================================================== *)
(** * find *)
(* ================================================================== *)

Lemma find_from_nil (fuel : nat) (ppattern : list Z) (w : world) :
  find_from fuel ppattern [] w = Ret (true, w).
Proof. destruct fuel; reflexivity. Qed.

(** With [m] matched so far and [p] still to match, a successful search
    has read bytes that, after [m], end in the pattern. *)
Lemma find_from_sound (fuel : nat) :
  forall pat m p w o e w',
    good (fst w) -> view w = (o, e) -> pat = m ++ p ->
    find_from fuel pat p w = Ret (true, w') ->
    exists k pre,
      (k <= length o)%nat /\ m ++ chars (firstn k o) = pre ++ pat
      /\ good (fst w') /\ view w' = (skipn k o, e).
Proof.
  induction fuel as [|fuel IH]; intros pat m p w o e w' G V Hp F.
  - destruct p as [|pc p]; [|discriminate].
    cbn in F. injection F as <-. exists 0%nat, []. subst pat.
    cbn [firstn chars map app skipn].
    split; [lia|]. split; [reflexivity|]. split; assumption.
  - destruct p as [|pc p].
    { cbn in F. injection F as <-. exists 0%nat, []. subst pat.
      cbn [firstn chars map app skipn].
      split; [lia|]. split; [reflexivity|]. split; assumption. }
    cbn [find_from] in F. unfold bind in F.
    pose proof (read_view w G) as R. rewrite V in R.
    destruct o as [|c o]; cbn [read_matches] in R.
    + destruct e as [s t|t rest|]; cbn [settles] in R.
      * destruct R as (r' & R & _). rewrite R in F. discriminate.
      * destruct R as (r' & R & _). rewrite R in F. discriminate.
      * rewrite R in F. discriminate.
    + destruct R as (w1 & R & G1 & V1). rewrite R in F.
      destruct (Z.ltb_spec (int_of_byte c) 0) as [Hneg|_].
      { pose proof (int_of_byte_nonneg c). lia. }
      destruct (Z.eqb_spec (to_char (int_of_byte c)) pc) as [Hc|Hc].
      * destruct (IH pat (m ++ [pc]) p w1 o e w' G1 V1) as (k & pre & L & A & G' & V');
          [subst pat; now rewrite <- app_assoc|exact F|].
        exists (S k), pre. cbn [length firstn chars map skipn].
        rewrite Hc. rewrite <- app_assoc in A. cbn [app] in A.
        split; [lia|]. split; [exact A|]. split; assumption.
      * destruct (IH pat [] pat w1 o e w' G1 V1) as (k & pre & L & A & G' & V');
          [reflexivity|exact F|].
        exists (S k), (m ++ to_char (int_of_byte c) :: pre).
        cbn [length firstn chars map skipn app] in *.
        rewrite <- app_assoc. cbn [app]. unfold chars in A. rewrite A.
        split; [lia|]. split; [reflexivity|]. split; assumption.
Qed.

(** X8.  When [find] returns true the bytes it has read end in the pattern, and
    the reader stands right after them: the bytes delivered from there on
    are the rest of the stream. *)
Theorem find_true_sound
  (r : ESP8266HttpRead) (timeoutMs : Z) (input : list byte)
  (fuel : nat) (ppattern : list Z) (w' : world) :
  wf_reader r ->
  find fuel ppattern (start r timeoutMs input) = Ret (true, w') ->
  exists k pre,
    (k <= length (delivered r timeoutMs input))%nat
    /\ map to_char (firstn k (delivered r timeoutMs input)) = pre ++ ppattern
    /\ fst (drain (S (length input)) w')
       = skipn k (delivered r timeoutMs input).
Proof.
  intros H F.
  pose proof (start_good r timeoutMs H input) as G.
  pose proof (start_view r timeoutMs input) as V.
  rewrite (delivered_scan r timeoutMs H input).
  destruct (scan CMD_WAIT [] input) as [o e] eqn:Es. cbn [fst].
  destruct (find_from_sound fuel ppattern [] ppattern _ o e w' G V eq_refl F)
    as (k & pre & L & A & G' & V').
  exists k, pre. cbn [app] in A.
  assert (Li : length (ints o) = length o) by (unfold ints; apply length_map).
  rewrite Li. split; [exact L|]. split.
  - unfold ints. rewrite firstn_map, <- chars_ints. exact A.
  - destruct (drain_view (skipn k o) (S (length input)) w' e G' V')
      as (tail' & D & _).
    + pose proof (scan_length input CMD_WAIT []) as Ls. rewrite Es in Ls.
      cbn [fst length] in Ls. rewrite length_skipn. lia.
    + rewrite D. cbn [fst]. unfold ints. now rewrite skipn_map.
Qed.

Lemma find_true_sound_witness :
  exists k pre,
    (k <= length (delivered new_reader 1000 (bytes "xDate: yz")))%nat
    /\ map to_char (firstn k (delivered new_reader 1000 (bytes "xDate: yz")))
       = pre ++ cstr "Date: "
    /\ fst (drain (S (length (bytes "xDate: yz")))
              (mkReader true 1000 CMD_WAIT (" "%char :: repeat Ascii.zero 19) 1 1,
               bytes "yz"))
       = skipn k (delivered new_reader 1000 (bytes "xDate: yz")).
Proof.
  apply (find_true_sound new_reader 1000 (bytes "xDate: yz") 9%nat
           (cstr "Date: ")
           (mkReader true 1000 CMD_WAIT (" "%char :: repeat Ascii.zero 19) 1 1,
            bytes "yz"));
    reflexivity.
Defined.

Lemma find_from_match (p : list Z) :
  forall fuel pat w o e rest,
    good (fst w) -> view w = (o, e) -> chars o = p ++ rest ->
    (length p <= fuel)%nat ->
    exists w',
      find_from fuel pat p w = Ret (true, w')
      /\ good (fst w') /\ view w' = (skipn (length p) o, e).
Proof.
  induction p as [|pc p IH]; intros fuel pat w o e rest G V C L.
  - exists w. rewrite find_from_nil. now split.
  - destruct fuel as [|fuel]; [cbn [length] in L; lia|].
    destruct o as [|c o]; [discriminate|].
    cbn [chars map app] in C. injection C as Hc C.
    pose proof (read_view w G) as R. rewrite V in R. cbn [read_matches] in R.
    destruct R as (w1 & R & G1 & V1).
    destruct (IH fuel pat w1 o e rest G1 V1 C) as (w' & F & G' & V');
      [cbn [length] in L; lia|].
    exists w'. cbn [find_from]. unfold bind. rewrite R.
    destruct (Z.ltb_spec (int_of_byte c) 0) as [Hneg|_].
    { pose proof (int_of_byte_nonneg c). lia. }
    rewrite Hc, Z.eqb_refl. now split.
Qed.

Lemma find_from_skip (pre : list Z) :
  forall fuel pc p' w o e rest,
    good (fst w) -> view w = (o, e) ->
    chars o = pre ++ (pc :: p') ++ rest -> ~ In pc pre ->
    (length pre + length (pc :: p') <= fuel)%nat ->
    exists w',
      find_from fuel (pc :: p') (pc :: p') w = Ret (true, w')
      /\ good (fst w')
      /\ view w' = (skipn (length pre + length (pc :: p')) o, e).
Proof.
  induction pre as [|x pre IH]; intros fuel pc p' w o e rest G V C N L.
  - exact (find_from_match (pc :: p') fuel (pc :: p') w o e rest G V C L).
  - destruct fuel as [|fuel]; [cbn [length] in L; lia|].
    destruct o as [|c o]; [discriminate|].
    cbn [chars map app] in C. injection C as Hc C.
    pose proof (read_view w G) as R. rewrite V in R. cbn [read_matches] in R.
    destruct R as (w1 & R & G1 & V1).
    destruct (IH fuel pc p' w1 o e rest G1 V1 C) as (w' & F & G' & V').
    { intros I. apply N. now right. }
    { cbn [length] in *. lia. }
    exists w'. cbn [find_from]. unfold bind. rewrite R.
    destruct (Z.ltb_spec (int_of_byte c) 0) as [Hneg|_].
    { pose proof (int_of_byte_nonneg c). lia. }
    destruct (Z.eqb_spec (to_char (int_of_byte c)) pc) as [E|_].
    { exfalso. apply N. left. congruence. }
    cbn [length plus skipn]. now split.
Qed.

(** X9.  [find] finds an occurrence that no earlier byte equal to the pattern's
    first byte precedes: it returns true having read exactly up to the end
    of that occurrence. *)
Theorem find_first_occurrence
  (r : ESP8266HttpRead) (timeoutMs : Z) (input : list byte) (fuel : nat)
  (pc : Z) (p' pre rest : list Z) :
  wf_reader r ->
  map to_char (delivered r timeoutMs input) = pre ++ (pc :: p') ++ rest ->
  ~ In pc pre ->
  (length pre + length (pc :: p') <= fuel)%nat ->
  exists w',
    find fuel (pc :: p') (start r timeoutMs input) = Ret (true, w')
    /\ fst (drain (S (length input)) w')
       = skipn (length pre + length (pc :: p')) (delivered r timeoutMs input).
Proof.
  intros H C N L.
  pose proof (start_good r timeoutMs H input) as G.
  pose proof (start_view r timeoutMs input) as V.
  rewrite (delivered_scan r timeoutMs H input) in *.
  destruct (scan CMD_WAIT [] input) as [o e] eqn:Es. cbn [fst] in *.
  rewrite <- chars_ints in C.
  destruct (find_from_skip pre fuel pc p' _ o e rest G V C N L)
    as (w' & F & G' & V').
  exists w'. split; [exact F|].
  destruct (drain_view _ (S (length input)) w' e G' V') as (tail' & D & _).
  - pose proof (scan_length input CMD_WAIT []) as Ls. rewrite Es in Ls.
    cbn [fst length] in Ls. rewrite length_skipn. lia.
  - rewrite D. cbn [fst]. unfold ints. now rewrite skipn_map.
Qed.

Lemma find_first_occurrence_witness :
  exists w',
    find 11 (68 :: cstr "ate: ")
      (start new_reader 1000 (bytes "HTTP" ++ IPD5 ++ bytes " Date: Fri"))
    = Ret (true, w')
    /\ fst (drain (S (length (bytes "HTTP" ++ IPD5 ++ bytes " Date: Fri"))) w')
       = skipn (length (cstr "HTTP ") + length (68 :: cstr "ate: "))
           (delivered new_reader 1000 (bytes "HTTP" ++ IPD5 ++ bytes " Date: Fri")).
Proof.
  apply (find_first_occurrence new_reader 1000
           (bytes "HTTP" ++ IPD5 ++ bytes " Date: Fri") 11%nat 68
           (cstr "ate: ") (cstr "HTTP ") (cstr "Fri")).
  - reflexivity.
  - reflexivity.
  - cbn. intros [E|[E|[E|[E|[E|[]]]]]]; discriminate E.
  - cbn. lia.
Defined.

(* ================================================================== *)
(** * findDate: how far a parse got *)
(* ================================================================== *)









(* ================================================================== *)
(** * readDouble: a number needs a byte after it *)
(* ================================================================== *)

Lemma integer_part_stop (fuel : nat) (saw : bool) (res : float) (ch : Z)
  (w : world) :
  is_digit (to_char ch) = false ->
  integer_part fuel saw res ch w = Ret ((saw, res, ch), w).
Proof. intros H. destruct fuel; cbn [integer_part]; rewrite H; reflexivity. Qed.

Lemma fraction_part_stop (fuel : nat) (saw : bool) (res scale : float) (ch : Z)
  (w : world) :
  is_digit (to_char ch) = false ->
  fraction_part fuel saw res scale ch w = Ret ((saw, res, ch), w).
Proof. intros H. destruct fuel; cbn [fraction_part]; rewrite H; reflexivity. Qed.

Lemma read_next (w : world) (o : list byte) (e : ending) :
  good (fst w) -> view w = (o, e) -> stops o e ->
  exists v w',
    read w = Ret (v, w') /\ good (fst w') /\ next_is o e v w'
    /\ is_digit (to_char v) = false.
Proof.
  intros G V S. pose proof (read_view w G) as R. rewrite V in R.
  destruct o as [|c o]; cbn [read_matches stops next_is] in *.
  - destruct e as [s t|t rest|]; cbn [settles] in R.
    + destruct R as (r' & -> & G' & _). eexists _, _.
      split; [reflexivity|]. split; [exact G'|]. split; [reflexivity|reflexivity].
    + destruct R as (r' & -> & G' & _). eexists _, _.
      split; [reflexivity|]. split; [exact G'|]. split; [reflexivity|reflexivity].
    + now elim S.
  - destruct R as (w' & -> & G' & V'). exists (int_of_byte c), w'.
    split; [reflexivity|]. split; [exact G'|]. split; [now split|exact S].
Qed.

Lemma integer_part_run (ds : list byte) :
  forall fuel saw res x w o e,
    good (fst w) -> view w = (ds ++ o, e) -> forallb digit_byte ds = true ->
    is_digit (to_char x) = true -> (length ds < fuel)%nat -> stops o e ->
    exists res' v w',
      integer_part fuel saw res x w = Ret ((true, res', v), w')
      /\ good (fst w') /\ next_is o e v w'.
Proof.
  induction ds as [|d ds IH]; intros fuel saw res x w o e G V D X L S;
    (destruct fuel as [|fuel]; [cbn [length] in L; lia|]);
    cbn [integer_part]; rewrite X; unfold bind.
  - destruct (read_next w o e G V S) as (v & w' & -> & G' & N & Hv).
    rewrite integer_part_stop by exact Hv.
    eexists _, v, w'. split; [reflexivity|]. now split.
  - cbn [forallb] in D. apply andb_true_iff in D. destruct D as [Dd D].
    pose proof (read_view w G) as R. rewrite V in R. cbn [app read_matches] in R.
    destruct R as (w1 & -> & G1 & V1).
    apply IH with (o := o) (e := e); try assumption.
    cbn [length] in L. lia.
Qed.

Lemma fraction_part_run (ds : list byte) :
  forall fuel saw res scale x w o e,
    good (fst w) -> view w = (ds ++ o, e) -> forallb digit_byte ds = true ->
    is_digit (to_char x) = true -> (length ds < fuel)%nat -> stops o e ->
    exists res' v w',
      fraction_part fuel saw res scale x w = Ret ((true, res', v), w')
      /\ good (fst w') /\ next_is o e v w'.
Proof.
  induction ds as [|d ds IH]; intros fuel saw res scale x w o e G V D X L S;
    (destruct fuel as [|fuel]; [cbn [length] in L; lia|]);
    cbn [fraction_part]; rewrite X; unfold bind.
  - destruct (read_next w o e G V S) as (v & w' & -> & G' & N & Hv).
    rewrite fraction_part_stop by exact Hv.
    eexists _, v, w'. split; [reflexivity|]. now split.
  - cbn [forallb] in D. apply andb_true_iff in D. destruct D as [Dd D].
    pose proof (read_view w G) as R. rewrite V in R. cbn [app read_matches] in R.
    destruct R as (w1 & -> & G1 & V1).
    apply IH with (o := o) (e := e); try assumption.
    cbn [length] in L. lia.
Qed.

(** The first [read()] and the integer loop, over the digits [ds]. *)
Lemma integer_phase (ds : list byte) (fuel : nat) (w : world)
  (o : list byte) (e : ending) :
  good (fst w) -> view w = (ds ++ o, e) -> forallb digit_byte ds = true ->
  (length ds < fuel)%nat -> stops o e ->
  exists saw res v w',
    (ch <- read ;; integer_part fuel false 0%float ch) w
    = Ret ((saw, res, v), w')
    /\ good (fst w') /\ next_is o e v w' /\ (ds <> [] -> saw = true).
Proof.
  intros G V D L S. unfold bind. destruct ds as [|d ds].
  - destruct (read_next w o e G V S) as (v & w' & -> & G' & N & Hv).
    rewrite integer_part_stop by exact Hv.
    eexists _, _, v, w'. split; [reflexivity|]. split; [exact G'|].
    split; [exact N|]. intros C. now elim C.
  - cbn [forallb] in D. apply andb_true_iff in D. destruct D as [Dd D].
    pose proof (read_view w G) as R. rewrite V in R. cbn [app read_matches] in R.
    destruct R as (w1 & -> & G1 & V1).
    destruct (integer_part_run ds fuel false 0%float (int_of_byte d) w1 o e
                G1 V1 D Dd) as (res' & v & w' & E & G' & N);
      [cbn [length] in L; lia|exact S|].
    rewrite E. eexists _, _, v, w'. split; [reflexivity|].
    split; [exact G'|]. split; [exact N|reflexivity].
Qed.

(** The [read()] after the dot and the fraction loop, over digits that end
    with the stream. *)
Lemma fraction_phase_unterminated (ds : list byte) (fuel : nat) (w : world)
  (e : ending) (saw : bool) (res : float) :
  good (fst w) -> view w = (ds, e) -> forallb digit_byte ds = true ->
  (length ds < fuel)%nat -> e <> AtOverflow ->
  exists saw' res' v w',
    (ch <- read ;; fraction_part fuel saw res 0.1%float ch) w
    = Ret ((saw', res', v), w')
    /\ v < 0.
Proof.
  intros G V D L S. unfold bind. destruct ds as [|d ds].
  - destruct (read_next w [] e G V S) as (v & w' & -> & G' & N & Hv).
    rewrite fraction_part_stop by exact Hv.
    eexists _, _, v, w'. split; [reflexivity|exact N].
  - cbn [forallb] in D. apply andb_true_iff in D. destruct D as [Dd D].
    pose proof (read_view w G) as R. rewrite V in R. cbn [read_matches] in R.
    destruct R as (w1 & -> & G1 & V1).
    destruct (fraction_part_run ds fuel saw res 0.1%float (int_of_byte d) w1
                [] e G1) as (res' & v & w' & E & G' & N);
      [now rewrite app_nil_r|exact D|exact Dd|cbn [length] in L; lia|exact S|].
    rewrite E. eexists _, _, v, w'. split; [reflexivity|exact N].
Qed.

(** X11.  A number must be followed by a byte.  When all the filter delivers is
    digits, or digits, a dot and digits, with the stream ending there (in a
    timeout or in [0,CLOSED]), [readDouble] returns DBL_MAX, whatever the
    digits. *)
Theorem readDouble_needs_terminator
  (r : ESP8266HttpRead) (timeoutMs : Z) (input : list byte) (fuel : nat)
  (ds1 ds2 : list byte) (dot : bool) :
  wf_reader r ->
  snd (filtered r timeoutMs input) <> OutOfBounds ->
  delivered r timeoutMs input
  = ints (ds1 ++ if dot then "."%char :: ds2 else []) ->
  forallb digit_byte ds1 = true -> forallb digit_byte ds2 = true ->
  (length input < fuel)%nat ->
  returned (readDouble fuel (start r timeoutMs input)) = Some DBL_MAX.
Proof.
  intros H Nf Dl D1 D2 L.
  pose proof (start_good r timeoutMs H input) as G.
  pose proof (start_view r timeoutMs input) as V.
  destruct (filtered_scan r timeoutMs H input) as (tail & F & St).
  rewrite (delivered_scan r timeoutMs H input) in Dl.
  pose proof (scan_length input CMD_WAIT []) as Ls.
  destruct (scan CMD_WAIT [] input) as [o e] eqn:Es. cbn [fst snd length] in *.
  apply ints_inj in Dl. subst o.
  assert (Ne : e <> AtOverflow).
  { intros ->. cbn [settles] in St. subst tail. rewrite F in Nf. now apply Nf. }
  rewrite length_app in Ls.
  unfold readDouble.
  destruct dot.
  - destruct (integer_phase ds1 fuel _ ("."%char :: ds2) e G V D1)
      as (saw & res & v & w1 & E & G1 & (-> & V1) & _); [lia|reflexivity|].
    cbn [length] in Ls.
    destruct (fraction_phase_unterminated ds2 fuel w1 e saw res G1 V1 D2)
      as (saw' & res' & v' & w2 & E' & Hv'); [lia|exact Ne|].
    unfold bind in *.
    destruct (read (start r timeoutMs input)) as [[ch0 w0]| |]; try discriminate.
    rewrite E.
    change (int_of_byte "."%char <? 0) with false.
    change (int_of_byte "."%char =? chr ".") with true. cbn [negb].
    destruct (read w1) as [[ch wa]| |]; try discriminate.
    rewrite E'. destruct (Z.ltb_spec v' 0); [reflexivity|lia].
  - rewrite app_nil_r in V.
    destruct (integer_phase ds1 fuel _ [] e G) as (saw & res & v & w1 & E & _ & Hv & _);
      [now rewrite app_nil_r|exact D1|lia|exact Ne|].
    cbn [next_is] in Hv. unfold bind in *.
    destruct (read (start r timeoutMs input)) as [[ch wa]| |]; try discriminate.
    rewrite E. destruct (Z.ltb_spec v 0); [reflexivity|lia].
Qed.

Lemma readDouble_needs_terminator_witness :
  returned (readDouble 20 (start new_reader 1000 (bytes "12" ++ IPD5 ++ bytes ".25")))
  = Some DBL_MAX.
Proof.
  apply (readDouble_needs_terminator new_reader 1000
           (bytes "12" ++ IPD5 ++ bytes ".25") 20%nat (bytes "12") (bytes "25")
           true); [reflexivity| |reflexivity|reflexivity|reflexivity|].
  - vm_compute. discriminate.
  - apply Nat.ltb_lt. reflexivity.
Defined.

(* ================================================================== *)
(** * findDate: a header written out is read back *)
(* ================================================================== *)

Lemma int_ltb0 (b : byte) : (int_of_byte b <? 0) = false.
Proof. apply Z.ltb_ge. apply int_of_byte_nonneg. Qed.

Lemma chars_not_in (c : byte) (pre : list byte) :
  ~ In c pre -> ~ In (chr c) (chars pre).
Proof.
  intros N I. apply N. unfold chars in I. apply in_map_iff in I.
  destruct I as (b & E & I). unfold chr in E. apply to_char_int_inj in E.
  now subst b.
Qed.

Lemma skipn_app_exact {A : Type} (n : nat) (l1 l2 : list A) :
  length l1 = n -> skipn n (l1 ++ l2) = l2.
Proof.
  intros <-. rewrite skipn_app, skipn_all, Nat.sub_diag. reflexivity.
Qed.

Ltac step_buf :=
  lazymatch goal with
  | G : good (fst ?w), V : view ?w = (?o, ?e)
    |- context [@bind _ _ (read_buf ?buf ?n) ?k ?w] =>
      let w' := fresh "w" in
      let E := fresh "E" in
      let G' := fresh "G" in
      let V' := fresh "V" in
      destruct (proj1 (read_buf_view n buf 0%nat w o e G V))
        as (w' & E & G' & V'); [cbn [length]; lia|];
      rewrite (bind_eq (read_buf buf n) k w w' _ E); clear E G V;
      cbn [firstn skipn chars map pokes poke app] in V' |- *;
      cbv beta iota zeta; cbn [negb peek nth]
  end.

Ltac step_read :=
  lazymatch goal with
  | G : good (fst ?w), V : view ?w = (?c :: ?o, ?e)
    |- context [@bind _ _ read ?k ?w] =>
      let w' := fresh "w" in
      let E := fresh "E" in
      let G' := fresh "G" in
      let V' := fresh "V" in
      let R := fresh "R" in
      pose proof (read_view w G) as R; rewrite V in R;
      cbn [read_matches] in R; destruct R as (w' & E & G' & V');
      rewrite (bind_eq read k w w' _ E); clear E G V;
      cbv beta iota zeta; rewrite int_ltb0
  end.


Section HeaderDate.
Variables (a b c s0 s1 d1 d2 s2 m1 m2 m3 s3 y1 y2 y3 y4 s4
           h1 h2 s5 n1 n2 s6 e1 e2 s7 : byte).
Variables (dw mn : Z).

Hypothesis Hwd :
  (let ch x := to_char (int_of_byte x) in
   if ch a =? chr "S" then
       if ch b =? chr "u" then Some 0
       else if ch b =? chr "a" then Some 6
       else None
     else if ch a =? chr "M" then Some 1
     else if ch a =? chr "T" then
       if ch b =? chr "u" then Some 2
       else if ch b =? chr "h" then Some 4
       else None
     else if ch a =? chr "W" then Some 3
     else if ch a =? chr "F" then Some 5
     else None) = Some dw.

Hypothesis Hmo :
  (let ch x := to_char (int_of_byte x) in
   if ch m1 =? chr "J" then
       if ch m2 =? chr "a" then Some 1
       else if ch m3 =? chr "n" then Some 6
       else if ch m3 =? chr "l" then Some 7
       else None
     else if ch m1 =? chr "F" then Some 2
     else if ch m1 =? chr "M" then
       if ch m3 =? chr "r" then Some 3
       else if ch m3 =? chr "y" then Some 5
       else None
     else if ch m1 =? chr "A" then
       if ch m2 =? chr "p" then Some 4
       else if ch m2 =? chr "u" then Some 8
       else None
     else if ch m1 =? chr "S" then Some 9
     else if ch m1 =? chr "O" then Some 10
     else if ch m1 =? chr "N" then Some 11
     else if ch m1 =? chr "D" then Some 12
     else None) = Some mn.

Hypothesis Hd1 : digit_byte d1 = true.
Hypothesis Hd2 : digit_byte d2 = true.
Hypothesis Hy1 : digit_byte y1 = true.
Hypothesis Hy2 : digit_byte y2 = true.
Hypothesis Hy3 : digit_byte y3 = true.
Hypothesis Hy4 : digit_byte y4 = true.
Hypothesis Hh1 : digit_byte h1 = true.
Hypothesis Hh2 : digit_byte h2 = true.
Hypothesis Hn1 : digit_byte n1 = true.
Hypothesis Hn2 : digit_byte n2 = true.
Hypothesis He1 : digit_byte e1 = true.
Hypothesis He2 : digit_byte e2 = true.

(** [findDate] on a header whose fields have the right shape: the digits are
    read as decimal numbers, the names through their first letters, and the
    eight bytes between the fields are passed over. *)
Lemma findDate_fields (fuel : nat) (w : world) (pre rest : list byte)
  (e : ending) :
  good (fst w) ->
  view w
  = (pre ++ bytes "Date: "
     ++ a :: b :: c :: s0 :: s1 :: d1 :: d2 :: s2 :: m1 :: m2 :: m3 :: s3
     :: y1 :: y2 :: y3 :: y4 :: s4 :: h1 :: h2 :: s5 :: n1 :: n2 :: s6
     :: e1 :: e2 :: s7 :: bytes "GMT" ++ rest, e) ->
  ~ In "D"%char pre -> (length pre + 6 <= fuel)%nat ->
  exists w',
    findDate fuel w
    = Ret ((true,
            mkDate dw
              (digit_value y1 * 1000 + digit_value y2 * 100
               + digit_value y3 * 10 + digit_value y4)
              mn
              (digit_value d1 * 10 + digit_value d2)
              (digit_value h1 * 10 + digit_value h2)
              (digit_value n1 * 10 + digit_value n2)
              (digit_value e1 * 10 + digit_value e2)), w')
    /\ good (fst w') /\ view w' = (rest, e).
Proof.
  intros G V N L. unfold digit_byte in *. cbv zeta beta in Hwd, Hmo.
  unfold findDate.
  destruct (find_from_skip (chars pre) fuel (chr "D") (cstr "ate: ") w _ e
              (chars (a :: b :: c :: s0 :: s1 :: d1 :: d2 :: s2 :: m1 :: m2
                      :: m3 :: s3 :: y1 :: y2 :: y3 :: y4 :: s4 :: h1 :: h2
                      :: s5 :: n1 :: n2 :: s6 :: e1 :: e2 :: s7
                      :: bytes "GMT" ++ rest)) G V)
    as (w0 & E0 & G0 & V0).
  { unfold chars. rewrite !map_app. reflexivity. }
  { now apply chars_not_in. }
  { unfold chars. rewrite length_map. exact L. }
  change (chr "D" :: cstr "ate: ") with (cstr "Date: ") in E0.
  match type of V0 with
  | view _ = (skipn ?n (pre ++ ?d ++ ?T), _) =>
      replace (skipn n (pre ++ d ++ T)) with T in V0
        by (rewrite app_assoc; symmetry; apply skipn_app_exact;
            unfold chars; rewrite length_app, !length_map; reflexivity)
  end.
  unfold find. rewrite (bind_eq _ _ _ _ _ E0). clear E0 G V.
  cbv beta iota zeta. cbn [negb].
  step_buf. rewrite Hwd.
  step_buf. step_buf. rewrite Hd1, Hd2. cbn [negb].
  step_read. step_buf. rewrite Hmo.
  step_read. step_buf. rewrite Hy1, Hy2, Hy3, Hy4. cbn [negb].
  step_read. step_buf. rewrite Hh1, Hh2. cbn [negb].
  step_read. step_buf. rewrite Hn1, Hn2. cbn [negb].
  step_read. step_buf. rewrite He1, He2. cbn [negb].
  step_read.
  change (bytes "GMT" ++ rest)
    with ("G"%char :: "M"%char :: "T"%char :: rest) in *.
  step_buf.
  eexists. split; [reflexivity|]. split; assumption.
Qed.

End HeaderDate.

Lemma digit_int (d : Z) : 0 <= d <= 9 -> int_of_byte (digit d) = 48 + d.
Proof.
  intros R. unfold digit, int_of_byte.
  rewrite N_ascii_embedding by lia. lia.
Qed.

Lemma digit_char (d : Z) : 0 <= d <= 9 -> to_char (int_of_byte (digit d)) = 48 + d.
Proof.
  intros R. rewrite digit_int by exact R. unfold to_char.
  rewrite Z.mod_small by lia. lia.
Qed.

Lemma digit_is_digit (d : Z) : 0 <= d <= 9 -> digit_byte (digit d) = true.
Proof.
  intros R. unfold digit_byte, is_digit. rewrite digit_char by exact R.
  change (chr "0") with 48. change (chr "9") with 57.
  apply andb_true_iff. split; apply Z.leb_le; lia.
Qed.

Lemma digit_value_digit (d : Z) : 0 <= d <= 9 -> digit_value (digit d) = d.
Proof.
  intros R. unfold digit_value. rewrite digit_char by exact R.
  change (chr "0") with 48. lia.
Qed.

Lemma weekday_names (wi : nat) (wd : string) :
  nth_error weekdays wi = Some wd ->
  exists a b c,
    bytes wd = [a; b; c]
    /\ (let ch x := to_char (int_of_byte x) in
        if ch a =? chr "S" then
          if ch b =? chr "u" then Some 0
          else if ch b =? chr "a" then Some 6
          else None
        else if ch a =? chr "M" then Some 1
        else if ch a =? chr "T" then
          if ch b =? chr "u" then Some 2
          else if ch b =? chr "h" then Some 4
          else None
        else if ch a =? chr "W" then Some 3
        else if ch a =? chr "F" then Some 5
        else None) = Some (Z.of_nat wi).
Proof.
  intros H.
  do 7 (destruct wi as [|wi];
        [injection H as <-; eexists _, _, _; split; reflexivity|]).
  destruct wi; discriminate H.
Qed.

Lemma month_names (mi : nat) (mo : string) :
  nth_error months mi = Some mo ->
  exists m1 m2 m3,
    bytes mo = [m1; m2; m3]
    /\ (let ch x := to_char (int_of_byte x) in
        if ch m1 =? chr "J" then
          if ch m2 =? chr "a" then Some 1
          else if ch m3 =? chr "n" then Some 6
          else if ch m3 =? chr "l" then Some 7
          else None
        else if ch m1 =? chr "F" then Some 2
        else if ch m1 =? chr "M" then
          if ch m3 =? chr "r" then Some 3
          else if ch m3 =? chr "y" then Some 5
          else None
        else if ch m1 =? chr "A" then
          if ch m2 =? chr "p" then Some 4
          else if ch m2 =? chr "u" then Some 8
          else None
        else if ch m1 =? chr "S" then Some 9
        else if ch m1 =? chr "O" then Some 10
        else if ch m1 =? chr "N" then Some 11
        else if ch m1 =? chr "D" then Some 12
        else None) = Some (Z.of_nat mi + 1).
Proof.
  intros H.
  do 12 (destruct mi as [|mi];
         [injection H as <-; eexists _, _, _; split; reflexivity|]).
  destruct mi; discriminate H.
Qed.

Lemma dec2_value (n : Z) :
  0 <= n < 100 ->
  digit_value (digit (n / 10)) * 10 + digit_value (digit (n mod 10)) = n.
Proof.
  intros R. rewrite !digit_value_digit by (Z.div_mod_to_equations; lia).
  Z.div_mod_to_equations. lia.
Qed.

Lemma dec4_value (n : Z) :
  0 <= n < 10000 ->
  digit_value (digit (n / 1000)) * 1000
  + digit_value (digit (n / 100 mod 10)) * 100
  + digit_value (digit (n / 10 mod 10)) * 10
  + digit_value (digit (n mod 10)) = n.
Proof.
  intros R. rewrite !digit_value_digit by (Z.div_mod_to_equations; lia).
  Z.div_mod_to_equations. lia.
Qed.

(** X12.  Writing a date out and parsing it gives the date back.  For every
    weekday and month name, every field value with the number of digits the
    format has, and whatever the eight bytes between the fields are,
    [findDate] returns true with exactly these fields, and the reader goes
    on with what follows [GMT].  The header may be preceded by any bytes
    without a [D]. *)
Theorem findDate_round_trip
  (r : ESP8266HttpRead) (timeoutMs : Z) (input pre rest : list byte)
  (fuel : nat) (sep : nat -> byte) (wi mi : nat) (wd mo : string)
  (dt : HttpDateTime) :
  wf_reader r ->
  nth_error weekdays wi = Some wd -> daySinceSunday dt = Z.of_nat wi ->
  nth_error months mi = Some mo -> month dt = Z.of_nat mi + 1 ->
  0 <= day dt < 100 -> 0 <= year dt < 10000 -> 0 <= hour dt < 100 ->
  0 <= minute dt < 100 -> 0 <= second dt < 100 ->
  ~ In "D"%char pre -> (length pre + 6 <= fuel)%nat ->
  delivered r timeoutMs input = ints (pre ++ date_text sep wd mo dt ++ rest) ->
  exists w',
    findDate fuel (start r timeoutMs input) = Ret ((true, dt), w')
    /\ fst (drain (S (length input)) w') = ints rest.
Proof.
  intros H Hw Ew Hm Em Rd Ry Rh Rn Rs N L Dl.
  pose proof (start_good r timeoutMs H input) as G.
  pose proof (start_view r timeoutMs input) as V.
  rewrite (delivered_scan r timeoutMs H input) in Dl.
  pose proof (scan_length input CMD_WAIT []) as Ls.
  destruct (scan CMD_WAIT [] input) as [o e] eqn:Es. cbn [fst length] in *.
  apply ints_inj in Dl. subst o.
  destruct (weekday_names wi wd Hw) as (a & b & c & Bw & Tw).
  destruct (month_names mi mo Hm) as (m1 & m2 & m3 & Bm & Tm).
  destruct dt as [dw yr mn dy hr mi' se]. cbn [daySinceSunday year month day hour minute second] in *.
  subst dw mn. unfold date_text in V, Ls.
  cbn [daySinceSunday year month day hour minute second] in V, Ls.
  rewrite Bw, Bm in V, Ls. unfold dec2, dec4 in V, Ls.
  assert (Q : forall x, 0 <= x < 100 -> 0 <= x / 10 <= 9 /\ 0 <= x mod 10 <= 9).
  { intros x Rx. Z.div_mod_to_equations. lia. }
  assert (Q4 : 0 <= yr / 1000 <= 9 /\ 0 <= yr / 100 mod 10 <= 9
               /\ 0 <= yr / 10 mod 10 <= 9 /\ 0 <= yr mod 10 <= 9).
  { Z.div_mod_to_equations. lia. }
  destruct (findDate_fields a b c (sep 0%nat) (sep 1%nat)
              (digit (dy / 10)) (digit (dy mod 10)) (sep 2%nat)
              m1 m2 m3 (sep 3%nat)
              (digit (yr / 1000)) (digit (yr / 100 mod 10))
              (digit (yr / 10 mod 10)) (digit (yr mod 10)) (sep 4%nat)
              (digit (hr / 10)) (digit (hr mod 10)) (sep 5%nat)
              (digit (mi' / 10)) (digit (mi' mod 10)) (sep 6%nat)
              (digit (se / 10)) (digit (se mod 10)) (sep 7%nat)
              (Z.of_nat wi) (Z.of_nat mi + 1) Tw Tm)
    with (fuel := fuel) (w := start r timeoutMs input) (pre := pre)
         (rest := rest) (e := e)
    as (w' & F & G' & V');
    try (apply digit_is_digit; first [apply Q; assumption | apply Q4]);
    try assumption.
  exists w'. split.
  - rewrite F. rewrite !dec2_value, dec4_value by assumption. reflexivity.
  - destruct (drain_view _ (S (length input)) w' e G' V') as (tail' & D & _).
    + rewrite !length_app in Ls. lia.
    + rewrite D. reflexivity.
Qed.

Lemma findDate_round_trip_witness :
  exists w',
    findDate 15
      (start new_reader 1000
         (bytes "Server: x" ++ IPD5
          ++ bytes "Date: Fri, 21 Aug 2015 22:06:40 GMT" ++ [CR]))
    = Ret ((true, mkDate 5 2015 8 21 22 6 40), w')
    /\ fst (drain (S (length (bytes "Server: x" ++ IPD5
                              ++ bytes "Date: Fri, 21 Aug 2015 22:06:40 GMT"
                              ++ [CR]))) w')
       = ints [CR].
Proof.
  apply (findDate_round_trip new_reader 1000
           (bytes "Server: x" ++ IPD5
            ++ bytes "Date: Fri, 21 Aug 2015 22:06:40 GMT" ++ [CR])
           (bytes "Server: x") [CR] 15%nat http_sep 5%nat 7%nat
           "Fri"%string "Aug"%string (mkDate 5 2015 8 21 22 6 40));
    try reflexivity; try (cbn; lia).
  cbn. intros [E|[E|[E|[E|[E|[E|[E|[E|[E|[]]]]]]]]]]; discriminate E.
Defined.

(* ================================================================== *)
(** * A field that does not fit the buffer *)
(* ================================================================== *)

Lemma scan_comma_overflow (f : list byte) :
  forall t b rest,
    has_colon f = false -> (20 <= length t + length f)%nat ->
    scan CMD_COMMA t (f ++ b :: rest) = ([], AtOverflow).
Proof.
  induction f as [|x f IH]; intros t b rest Hc L; cbn [app scan].
  - cbn [length] in L.
    destruct (Nat.leb_spec 20 (length t)); [reflexivity|lia].
  - destruct (Nat.leb_spec 20 (length t)); [reflexivity|].
    unfold has_colon in Hc. cbn [existsb] in Hc.
    apply orb_false_iff in Hc. destruct Hc as [Hx Hc].
    unfold next. rewrite Ascii.eqb_sym, Hx.
    apply IH; [exact Hc|].
    rewrite length_app. cbn [length] in *. lia.
Qed.

(** X13.  The converse of the buffer bound.  When the reader is idle and
    [\n+IPD,] arrives followed by 15 or more bytes of which the first 14 hold
    no colon, the store of the 15th byte falls outside [_cmdBuf]; what was
    delivered up to there is what was delivered before the [\n+IPD,]. *)
Theorem ipd_field_overflows
  (r : ESP8266HttpRead) (timeoutMs : Z) (pre field rest : list byte) (b : byte) :
  wf_reader r ->
  ends_idle (snd (filtered r timeoutMs pre)) = true ->
  (length field = 14)%nat -> has_colon field = false ->
  filtered r timeoutMs (pre ++ IPD ++ field ++ b :: rest)
  = (delivered r timeoutMs pre, OutOfBounds).
Proof.
  intros H I Lf Hc. pose proof (filtered_idle r timeoutMs H pre I) as P.
  destruct (filtered_scan r timeoutMs H (pre ++ IPD ++ field ++ b :: rest))
    as (tail & F & St).
  rewrite (scan_after_idle pre (IPD ++ field ++ b :: rest) P) in F, St.
  change (scan CMD_WAIT [] (IPD ++ field ++ b :: rest))
    with (scan CMD_COMMA IPD (field ++ b :: rest)) in F, St.
  rewrite scan_comma_overflow in F, St;
    [|exact Hc|rewrite Lf; cbn; lia|exact Hc|rewrite Lf; cbn; lia].
  cbn [fst snd settles] in F, St. subst tail.
  rewrite app_nil_r in F. rewrite F.
  now rewrite (delivered_scan r timeoutMs H pre).
Qed.

Lemma ipd_field_overflows_witness :
  filtered new_reader 1000
    (bytes "OK" ++ IPD ++ bytes "1460,192.0.2.7" ++ ","%char :: bytes "80:data")
  = (delivered new_reader 1000 (bytes "OK"), OutOfBounds).
Proof.
  apply (ipd_field_overflows new_reader 1000 (bytes "OK")
           (bytes "1460,192.0.2.7") (bytes "80:data") ","%char);
    reflexivity.
Defined.
